(** * c2cx client: trading operations and the reconciliation sweeps

    A shallow embedding of [exchange/c2cx.com/client.go].  The methods of
    [Client] are written in a state-and-panic monad over a [World] that holds
    the client's fields, the state of the remote venue, the local clock and
    the logger's output.  The goroutines started by [checkUpdate] and the
    loop of [Update] are written as step functions on small program
    counters and run under an explicit schedule. *)

From Stdlib Require Import ZArith String Ascii List Bool Lia.
From stdpp Require Import base option list gmap strings.

Local Open Scope Z_scope.
Local Open Scope string_scope.
Local Open Scope list_scope.

(** ** Go's [error] values

    The errors that reach the client: a failure reported by a remote call
    or by [normalize], the value built by [errors.Errorf] in [GetBalance],
    and the lookup miss of the order tracker. *)
Inductive error : Type :=
| RemoteError (msg : string)
| Errorf (format arg : string)
| NotTracked (orderID : Z).

(** The record of an order as the venue reports it; [checkUpdate] reads
    [order.OrderID] and [order.CreateDate] (epoch seconds). *)
Module Order.
Record t : Type := mk { OrderID : Z; CreateDate : Z }.
End Order.

(** Modelled from the spec: what the order tracker keeps of an order, in
    the order of section 3 of the specification: symbol, side, status,
    amount, price, createdAt and completedAt. *)
Definition entry (float64 Time : Type) : Type :=
  (string * string * string * float64 * float64 * option Time * option Time)%type.

(** ** What the client consumes from outside this file

    The functions of package c2cx that perform one venue operation each
    ([CreateOrder], [CancelOrder], [GetBalance], [GetOrderBook],
    [GetOrderByStatus]), [normalize], [unixToTime], the constant
    [PriceTypeMarket] and the tables [allowed] and [Statusees] live in other
    files of the package.  They are taken as parameters: a remote call is a
    function of the venue's state that returns Go's [(value, error)] pair
    and the venue's next state.  [allowed] is the list of symbols that
    [range allowed] yields, [Statusees] the list of keys that
    [range Statusees] yields, and [time_Now n] is reading number [n] of the
    local clock.  A [float64] is only carried along, never computed with.

    [unicode_ToLower] is [strings.Map(unicode.ToLower, s)], to which
    [strings.ToLower] hands every string that is not plain ASCII.

    [updateDetails] is what [exchange.OrderTracker.UpdateOrderDetails]
    makes of the entry of the id it is called with ([None] when the
    tracker holds none, and [None] again when it keeps none).  Section 4.3
    of the specification calls the operation an upsert of status and
    creation timestamp, and section 9 leaves open whether an id the
    tracker does not hold is accepted; the call itself carries the id, the
    symbol and the creation time only. *)
Class Externals : Type := {
  float64 : Type;
  float64_zero : float64;
  Time : Type;
  Venue : Type;
  PriceType : Type;
  PriceTypeMarket : PriceType;
  normalize : string -> string * option error;
  CreateOrder : string -> string -> string -> string -> PriceType ->
                float64 -> Z -> float64 -> Venue -> (Z * option error) * Venue;
  CancelOrder : string -> string -> Z -> Venue -> option error * Venue;
  GetBalance : string -> string -> Venue ->
               (gmap string string * option error) * Venue;
  GetOrderBook : string -> Venue ->
                 ((list (float64 * float64) * list (float64 * float64)) * option error) * Venue;
  GetOrderByStatus : string -> string -> string -> string -> Z -> Venue ->
                     (list Order.t * option error) * Venue;
  allowed : list string;
  Statusees : list string;
  unixToTime : Z -> Time;
  time_Now : nat -> Time;
  unicode_ToLower : string -> string;
  updateDetails : Z -> string -> Time ->
                  option (entry float64 Time) -> option (entry float64 Time)
}.

(** ** Package exchange: the two trackers *)
Module exchange.

(** Modelled from the spec: the status constants of package exchange, whose
    file is not among those verified here; section 3 of the specification
    names the statuses submitted, opened, partially-filled, completed and
    cancelled.  [checkUpdate] uses four of them as the cases of one switch,
    so they are pairwise distinct. *)
Definition StatusSubmitted : string := "submitted".
Definition StatusOpened : string := "opened".
Definition StatusPartial : string := "partially-filled".
Definition StatusCompleted : string := "completed".
Definition StatusCancelled : string := "cancelled".

(** Modelled from the spec: the side constants of package exchange; section
    3 of the specification names the sides buy and sell. *)
Definition ActionBuy : string := "buy".
Definition ActionSell : string := "sell".

Section Trackers.
Context `{E : Externals}.

(** Modelled from the spec: the fields of an order owned by the tracker
    (section 3: symbol, side, status, amount, price, createdAt,
    completedAt).  Until the venue has reported the creation time the
    tracker keeps its own submission time, which [client.go] neither
    supplies nor reads: [createdAt] is [None] for it. *)
Record Fields : Type := mkFields {
  symbol : string;
  side : string;
  status : string;
  amount : float64;
  price : float64;
  createdAt : option Time;
  completedAt : option Time
}.

(** Modelled from the spec: [exchange.OrderInfo], the record of an order
    with its id; the client reads the fields [OrderID] and [TradePair]. *)
Record OrderInfo : Type := mkInfo { OrderID : Z; fields : Fields }.

Definition TradePair (o : OrderInfo) : string := symbol (fields o).
Definition Status (o : OrderInfo) : string := status (fields o).

(** Go's zero value of [OrderInfo]. *)
Definition zeroInfo : OrderInfo :=
  mkInfo 0 (mkFields "" "" "" float64_zero float64_zero None None).

Definition set_status (s : string) (f : Fields) : Fields :=
  mkFields (symbol f) (side f) s (amount f) (price f) (createdAt f) (completedAt f).

Definition set_completed (observedAt : Time) (f : Fields) : Fields :=
  mkFields (symbol f) (side f) StatusCompleted (amount f) (price f)
           (createdAt f) (Some observedAt).

Definition to_entry (f : Fields) : entry float64 Time :=
  (symbol f, side f, status f, amount f, price f, createdAt f, completedAt f).

Definition of_entry (e : entry float64 Time) : Fields :=
  let '(sym, sd, st, amt, pr, created, completed) := e in
  mkFields sym sd st amt pr created completed.

(** Modelled from the spec: an order is live (executed, unsettled) until it
    is completed or cancelled (sections 3 and 4.1). *)
Definition live (f : Fields) : bool :=
  negb (String.eqb (status f) StatusCompleted || String.eqb (status f) StatusCancelled).

End Trackers.

(** [exchange.OrderTracker], whose code is not among the files verified
    here.  Sections 2, 6 and 9 of the specification describe a store keyed
    by order id with the operations newOrder, cancel, complete,
    updateDetails, get, status, executed and completed, each an update in
    place by id. *)
Module OrderTracker.
Section Ops.
Context `{E : Externals}.

(** Modelled from the spec: newOrder(symbol, side, status, id, amount,
    price) records the order under its id (section 6). *)
Definition NewOrder (sym action st : string) (id : Z) (amt pr : float64)
    (tr : gmap Z Fields) : gmap Z Fields :=
  <[id := mkFields sym action st amt pr None None]> tr.

(** Modelled from the spec: cancel(id) moves the entry of [id] to cancelled,
    in place; an id the store does not hold is left out (section 4.1: the
    id has to exist locally already). *)
Definition Cancel (id : Z) (tr : gmap Z Fields) : gmap Z Fields :=
  alter (set_status StatusCancelled) id tr.

(** Modelled from the spec: complete(id, observedAt) moves the entry of
    [id] to completed and sets completedAt, in place. *)
Definition Complete (id : Z) (observedAt : Time) (tr : gmap Z Fields) : gmap Z Fields :=
  alter (set_completed observedAt) id tr.

(** Modelled from the spec: what updateDetails(id, symbol, createdAt) makes
    of the entry [old] of [id]; the rule itself is the tracker's own
    ([updateDetails]). *)
Definition upsert (id : Z) (sym : string) (accepted : Time) (old : option Fields)
    : option Fields :=
  of_entry <$> updateDetails id sym accepted (to_entry <$> old).

(** Modelled from the spec: updateDetails(id, symbol, createdAt) works on
    the entry of [id] and on no other, in place (section 4.3: the tracker
    is update-in-place by id). *)
Definition UpdateOrderDetails (id : Z) (sym : string) (accepted : Time)
    (tr : gmap Z Fields) : gmap Z Fields :=
  partial_alter (upsert id sym accepted) id tr.

(** Modelled from the spec: get(id) answers the record or fails with
    NotTracked (sections 4.1, 6 and 7); in Go the failure comes with the
    zero [OrderInfo]. *)
Definition Get (id : Z) (tr : gmap Z Fields) : OrderInfo * option error :=
  match tr !! id with
  | Some f => (mkInfo id f, None)
  | None => (zeroInfo, Some (NotTracked id))
  end.

(** Modelled from the spec: status(id) answers the status or fails with
    NotTracked. *)
Definition Status (id : Z) (tr : gmap Z Fields) : string * option error :=
  match tr !! id with
  | Some f => (status f, None)
  | None => ("", Some (NotTracked id))
  end.

Definition infos (l : list (Z * Fields)) : list OrderInfo :=
  (fun kf => mkInfo (fst kf) (snd kf)) <$> l.

(** Modelled from the spec: executed() lists the live (unsettled) orders
    (section 4.1). *)
Definition Executed (tr : gmap Z Fields) : list OrderInfo :=
  infos (filter (fun kf => live (snd kf) = true) (map_to_list tr)).

(** Modelled from the spec: completed() lists the completed orders. *)
Definition Completed (tr : gmap Z Fields) : list OrderInfo :=
  infos (filter (fun kf => status (snd kf) = StatusCompleted) (map_to_list tr)).

End Ops.
End OrderTracker.

(** [exchange.OrderBookTracker], an interface whose implementations are not
    among the files verified here. *)
Module OrderBookTracker.
Section Ops.
Context `{E : Externals}.

(** Bids or asks: an ordered sequence of (price, size). *)
Definition Quotes : Type := list (float64 * float64).

(** Modelled from the spec: updateSymbol(symbol, bids, asks) keeps one
    snapshot per symbol and replaces it entirely (sections 3 and 6). *)
Definition UpdateSym (sym : string) (bids asks : Quotes)
    (bk : gmap string (Quotes * Quotes)) : gmap string (Quotes * Quotes) :=
  <[sym := (bids, asks)]> bk.

End Ops.
End OrderBookTracker.

End exchange.

Import exchange.

(** ** The client and the world it runs in *)

Section World.
Context `{E : Externals}.

(** The fields of [Client] that the methods below read.  [Tracker] is a
    pointer and [OrderBookTracker] an interface value: both may be nil.
    [RefreshInterval] is a [time.Duration].  The fields [Stop] and [sem]
    and the ticker belong to the run of [Update] and are part of the
    machine further down; [prevUpdate] is never used. *)
Record Client : Type := mkClient {
  Key : string;
  Secret : string;
  RefreshInterval : Z;
  Tracker : option (gmap Z Fields);
  OrderBookTracker : option (gmap string (OrderBookTracker.Quotes * OrderBookTracker.Quotes))
}.

(** The client, the venue behind the remote calls, the number of readings
    taken from the local clock so far, and what [logger.Warningf] was given. *)
Record World : Type := mkWorld {
  client : Client;
  venue : Venue;
  clock : nat;
  warnings : list (string * error)
}.

End World.

(** A call either returns or panics (a nil-pointer dereference). *)
Inductive Run (A : Type) : Type :=
| Returned (a : A)
| Panicked.
Arguments Returned {A} a.
Arguments Panicked {A}.

Section Monad.
Context `{E : Externals}.

Definition M (A : Type) : Type := World -> Run A * World.

#[export] Instance M_ret : MRet M := fun A a w => (Returned a, w).

#[export] Instance M_bind : MBind M := fun A B f m w =>
  match m w with
  | (Returned a, w') => f a w'
  | (Panicked, w') => (Panicked, w')
  end.

Definition set_venue (v : Venue) (w : World) : World :=
  mkWorld (client w) v (clock w) (warnings w).

Definition set_tracker (tr : gmap Z Fields) (w : World) : World :=
  mkWorld (mkClient (Key (client w)) (Secret (client w))
                    (RefreshInterval (client w)) (Some tr)
                    (OrderBookTracker (client w)))
          (venue w) (clock w) (warnings w).

Definition set_book (bk : gmap string (OrderBookTracker.Quotes * OrderBookTracker.Quotes))
    (w : World) : World :=
  mkWorld (mkClient (Key (client w)) (Secret (client w))
                    (RefreshInterval (client w)) (Tracker (client w))
                    (Some bk))
          (venue w) (clock w) (warnings w).

(** Reading the fields of [c]. *)
Definition getClient : M Client := fun w => (Returned (client w), w).

(** One synchronous call to the venue. *)
Definition remote {A : Type} (call : Venue -> A * Venue) : M A := fun w =>
  let (a, v) := call (venue w) in (Returned a, set_venue v w).

(** A method of [c.Tracker] that mutates the tracker; the methods read the
    receiver's store, so a nil [c.Tracker] panics. *)
Definition tracker_call (f : gmap Z Fields -> gmap Z Fields) : M unit := fun w =>
  match Tracker (client w) with
  | Some tr => (Returned tt, set_tracker (f tr) w)
  | None => (Panicked, w)
  end.

(** A method of [c.Tracker] that only reads. *)
Definition tracker_read {A : Type} (f : gmap Z Fields -> A) : M A := fun w =>
  match Tracker (client w) with
  | Some tr => (Returned (f tr), w)
  | None => (Panicked, w)
  end.

(** A method of [c.OrderBookTracker] that mutates the book. *)
Definition book_call
    (f : gmap string (OrderBookTracker.Quotes * OrderBookTracker.Quotes) ->
         gmap string (OrderBookTracker.Quotes * OrderBookTracker.Quotes)) : M unit := fun w =>
  match OrderBookTracker (client w) with
  | Some bk => (Returned tt, set_book (f bk) w)
  | None => (Panicked, w)
  end.

(** [time.Now()]: the next reading of the local clock. *)
Definition time_now : M Time := fun w =>
  (Returned (time_Now (clock w)),
   mkWorld (client w) (venue w) (S (clock w)) (warnings w)).

(** [logger.Warningf(format, err)]. *)
Definition Warningf (format : string) (err : error) : M unit := fun w =>
  (Returned tt,
   mkWorld (client w) (venue w) (clock w) (warnings w ++ [(format, err)])).

End Monad.

(** ** [strings.ToLower]

    Go scans the bytes of the string.  When all of them are below 0x80 the
    letters A to Z are lowered byte by byte and every other byte is kept;
    otherwise the string goes through [strings.Map(unicode.ToLower, s)],
    which lowers every upper-case letter of Unicode. *)
Definition lower_ascii (a : ascii) : ascii :=
  let n := nat_of_ascii a in
  if (65 <=? n)%nat && (n <=? 90)%nat then ascii_of_nat (n + 32) else a.

Fixpoint lower_bytes (s : string) : string :=
  match s with
  | EmptyString => EmptyString
  | String a s' => String (lower_ascii a) (lower_bytes s')
  end.

Fixpoint isASCII (s : string) : bool :=
  match s with
  | EmptyString => true
  | String a s' => (nat_of_ascii a <? 128)%nat && isASCII s'
  end.

Definition ToLower `{E : Externals} (s : string) : string :=
  if isASCII s then lower_bytes s else unicode_ToLower s.

(** ** The methods of [Client] *)
Module Client.
Section Methods.
Context `{E : Externals}.

(** [Client.Cancel(orderID int)], returning a pointer to [exchange.OrderInfo]
    and an error. *)
Definition Cancel (orderID : Z) : M (option OrderInfo * option error) :=
  c ← getClient;
  err ← remote (CancelOrder (Key c) (Secret c) orderID);
  match err with
  | Some e => mret (None, Some e)
  | None =>
      _ ← tracker_call (OrderTracker.Cancel orderID);
      '(order, err) ← tracker_read (OrderTracker.Get orderID);
      mret (Some order, err)
  end.

(** The loop of [CancelAll] over [orders], with [result] so far. *)
Fixpoint CancelAll_loop (orders : list OrderInfo) (result : list (option OrderInfo))
    : M (list (option OrderInfo) * option error) :=
  match orders with
  | [] => mret (result, None)
  | v :: rest =>
      '(info, err) ← Cancel (OrderID v);
      match err with
      | Some e => mret (result, Some e)
      | None => CancelAll_loop rest (result ++ [info])
      end
  end.

(** [func (c *Client) CancelAll() ([]*exchange.OrderInfo, error)] *)
Definition CancelAll : M (list (option OrderInfo) * option error) :=
  orders ← tracker_read OrderTracker.Executed;
  CancelAll_loop orders [].

(** The loop of [CancelMarket]: only the orders on [sym] are cancelled. *)
Fixpoint CancelMarket_loop (sym : string) (orders : list OrderInfo)
    (result : list (option OrderInfo)) : M (list (option OrderInfo) * option error) :=
  match orders with
  | [] => mret (result, None)
  | v :: rest =>
      if String.eqb (TradePair v) sym then
        '(info, err) ← Cancel (OrderID v);
        match err with
        | Some e => mret (result, Some e)
        | None => CancelMarket_loop sym rest (result ++ [info])
        end
      else CancelMarket_loop sym rest result
  end.

(** [func (c *Client) CancelMarket(symbol string) ([]*exchange.OrderInfo, error)];
    on a symbol that [normalize] rejects the returned slice is nil. *)
Definition CancelMarket (sym : string) : M (option (list (option OrderInfo)) * option error) :=
  let '(sym, err) := normalize sym in
  match err with
  | Some e => mret (None, Some e)
  | None =>
      orders ← tracker_read OrderTracker.Executed;
      '(result, err) ← CancelMarket_loop sym orders [];
      mret (Some result, err)
  end.

(** [func (c *Client) Buy(symbol string, price, amount float64) (orderID int, err error)] *)
Definition Buy (sym : string) (pr amt : float64) : M (Z * option error) :=
  let '(sym, err) := normalize sym in
  match err with
  | Some e => mret (0, Some e)
  | None =>
      c ← getClient;
      '(orderID, err) ← remote (CreateOrder (Key c) (Secret c) sym "buy"
                                            PriceTypeMarket amt 1 pr);
      match err with
      | Some e => mret (orderID, Some e)
      | None =>
          _ ← tracker_call (OrderTracker.NewOrder sym ActionBuy StatusSubmitted
                                                  orderID amt pr);
          mret (orderID, None)
      end
  end.

(** [func (c *Client) Sell(symbol string, price, amount float64) (orderID int, err error)] *)
Definition Sell (sym : string) (pr amt : float64) : M (Z * option error) :=
  let '(sym, err) := normalize sym in
  match err with
  | Some e => mret (0, Some e)
  | None =>
      c ← getClient;
      '(orderID, err) ← remote (CreateOrder (Key c) (Secret c) sym "sell"
                                            PriceTypeMarket amt 1 pr);
      match err with
      | Some e => mret (orderID, Some e)
      | None =>
          _ ← tracker_call (OrderTracker.NewOrder sym ActionSell StatusSubmitted
                                                  orderID amt pr);
          mret (orderID, None)
      end
  end.

(** [func (c *Client) OrderStatus(orderID int) (string, error)] *)
Definition OrderStatus (orderID : Z) : M (string * option error) :=
  tracker_read (OrderTracker.Status orderID).

(** [func (c *Client) OrderDetails(orderID int) (exchange.OrderInfo, error)] *)
Definition OrderDetails (orderID : Z) : M (OrderInfo * option error) :=
  '(order, err) ← tracker_read (OrderTracker.Get orderID);
  mret (order, err).

(** [func (c *Client) Executed() []*exchange.OrderInfo] *)
Definition Executed : M (list OrderInfo) := tracker_read OrderTracker.Executed.

(** [func (c *Client) Completed() []*exchange.OrderInfo] *)
Definition Completed : M (list OrderInfo) := tracker_read OrderTracker.Completed.

(** [func (c *Client) GetBalance(currency string) (string, error)] *)
Definition GetBalance (currency : string) : M (string * option error) :=
  c ← getClient;
  '(info, err) ← remote (GetBalance (Key c) (Secret c));
  match err with
  | Some e => mret ("", Some e)
  | None =>
      match info !! ToLower currency with
      | Some v => mret (v, None)
      | None => mret ("", Some (Errorf "currency %s does not found" currency))
      end
  end.

End Methods.
End Client.

(** ** The goroutines of [checkUpdate]

    Each goroutine is a step function on its program counter; one step is
    one call to the venue or one call to a tracker, which is what the
    trackers' own locking makes atomic. *)
Section Goroutines.
Context `{E : Externals}.

(** The task started for one (symbol, status) pair. *)
Inductive OrderTask : Type :=
| OFetch (sym st : string)
| OLoop (sym st : string) (orders : list Order.t)
| ODone.

(** The body of [for _, order := range orders] in the order-status task. *)
Definition reconcile (sym st : string) (order : Order.t) : M unit :=
  let accepted := unixToTime (Order.CreateDate order) in
  if String.eqb st StatusOpened || String.eqb st StatusPartial then
    tracker_call (OrderTracker.UpdateOrderDetails (Order.OrderID order) sym accepted)
  else if String.eqb st StatusCancelled then
    tracker_call (OrderTracker.Cancel (Order.OrderID order))
  else if String.eqb st StatusCompleted then
    now ← time_now;
    tracker_call (OrderTracker.Complete (Order.OrderID order) now)
  else mret tt.

Definition orderTask_step (t : OrderTask) : M OrderTask :=
  match t with
  | OFetch sym st =>
      c ← getClient;
      '(orders, err) ← remote (GetOrderByStatus (Key c) (Secret c) sym st (-1));
      match err with
      | Some e =>
          _ ← Warningf "c2cx: update order info failed %s" e;
          mret ODone
      | None => mret (OLoop sym st orders)
      end
  | OLoop sym st [] => mret ODone
  | OLoop sym st (order :: rest) =>
      _ ← reconcile sym st order;
      mret (OLoop sym st rest)
  | ODone => mret ODone
  end.

(** The task started for one symbol of the order-book sweep. *)
Inductive BookTask : Type :=
| BFetch (sym : string)
| BUpdate (sym : string) (bids asks : OrderBookTracker.Quotes)
| BDone.

Definition bookTask_step (t : BookTask) : M BookTask :=
  match t with
  | BFetch sym =>
      '(orders, err) ← remote (GetOrderBook sym);
      match err with
      | Some _ => mret BDone
      | None => mret (BUpdate sym (fst orders) (snd orders))
      end
  | BUpdate sym bids asks =>
      _ ← book_call (OrderBookTracker.UpdateSym sym bids asks);
      mret BDone
  | BDone => mret BDone
  end.

(** A pool of tasks that run concurrently: the scheduler picks the task
    that takes the next step.  Picking a task that has ended, or a position
    outside the pool, changes nothing. *)
Definition pool_step {T : Type} (step : T -> M T) (i : nat) (pool : list T) : M (list T) :=
  match pool !! i with
  | Some t => t' ← step t; mret (<[i := t']> pool)
  | None => mret pool
  end.

Fixpoint run_pool {T : Type} (step : T -> M T) (sched : list nat) (pool : list T)
    : M (list T) :=
  match sched with
  | [] => mret pool
  | i :: sched' => pool' ← pool_step step i pool; run_pool step sched' pool'
  end.

(** [wg.Wait()] returns once every task has called [w.Done()]. *)
Definition order_done (t : OrderTask) : bool :=
  match t with ODone => true | _ => false end.

Definition book_done (t : BookTask) : bool :=
  match t with BDone => true | _ => false end.

(** The tasks of one order-status sweep: [allowed] x [Statusees]. *)
Definition order_tasks : list OrderTask :=
  flat_map (fun sym => map (fun s => OFetch sym s) Statusees) allowed.

(** The tasks of one order-book sweep: one per entry of [allowed]. *)
Definition book_tasks : list BookTask := BFetch <$> allowed.

(** ** [Update] and the goroutines it leaves behind *)

(** The goroutine that runs [Update]: not running, waiting in [select], or
    inside [checkUpdate] at [wg.Wait()] for the order-status tasks. *)
Inductive UpdateLoop : Type :=
| UIdle
| USelect
| UWait (tasks : list OrderTask).

(** The detached goroutine of the order-book sweep: at [c.sem <- struct{}{}],
    at [wg.Wait()] with its tasks (followed by [<-c.sem]), or finished. *)
Inductive BookSweep : Type :=
| SSend
| SWait (tasks : list BookTask)
| SExit.

(** [sem] is the field [c.sem]: [None] is the nil channel, [Some n] a channel
    of capacity one that holds [n] values. *)
Record Machine : Type := mkMachine {
  world : World;
  sem : option nat;
  upd : UpdateLoop;
  sweeps : list BookSweep
}.

Inductive Event : Type :=
| EvUpdate            (* Update() is called *)
| EvTick              (* the ticker fires and select takes it *)
| EvStop              (* select receives from c.Stop *)
| EvOrder (j : nat)   (* order-status task j takes a step *)
| EvJoin              (* wg.Wait() of the order-status sweep returns *)
| EvSend (g : nat)    (* book sweep g sends on c.sem *)
| EvBook (g j : nat)  (* task j of book sweep g takes a step *)
| EvRecv (g : nat).   (* wg.Wait() of book sweep g returns, then <-c.sem *)

(** [time.Duration] is an [int64] that counts nanoseconds; a product of
    two of them wraps around. *)
Definition int64 (z : Z) : Z := (z + 2 ^ 63) mod 2 ^ 64 - 2 ^ 63.

Definition Millisecond : Z := 1000000.

(** The argument of [time.NewTicker] in [Update]:
    [c.RefreshInterval * time.Millisecond]. *)
Definition ticker_period (c : Client) : Z := int64 (RefreshInterval c * Millisecond).

(** What [checkUpdate] does on the goroutine of [Update]: it starts the
    order-book sweep when [c.OrderBookTracker != nil], and starts the
    order-status tasks and waits for them when [c.Tracker != nil]. *)
Definition checkUpdate (m : Machine) : Machine :=
  let sweeps' :=
    match OrderBookTracker (client (world m)) with
    | Some _ => sweeps m ++ [SSend]
    | None => sweeps m
    end in
  let upd' :=
    match Tracker (client (world m)) with
    | Some _ => UWait order_tasks
    | None => USelect
    end in
  mkMachine (world m) (sem m) upd' sweeps'.

(** One step of the machine.  An event that is not enabled (a send on a
    full or nil channel, a receive before the tasks are done, a tick while
    [checkUpdate] is still waiting) leaves the machine as it is: the
    goroutine stays blocked.  A panic of a goroutine ends the program.
    [Update] makes the channel and then the ticker, and [time.NewTicker]
    panics when the period is not positive.  [Update] is called by one
    goroutine at a time: a call while it is running is left out. *)
Definition step (ev : Event) (m : Machine) : Run Machine :=
  match ev with
  | EvUpdate =>
      match upd m with
      | UIdle =>
          if (0 <? ticker_period (client (world m)))%Z
          then Returned (mkMachine (world m) (Some 0%nat) USelect (sweeps m))
          else Panicked
      | _ => Returned m
      end
  | EvTick =>
      match upd m with
      | USelect => Returned (checkUpdate m)
      | _ => Returned m
      end
  | EvStop =>
      match upd m with
      | USelect => Returned (mkMachine (world m) (sem m) UIdle (sweeps m))
      | _ => Returned m
      end
  | EvOrder j =>
      match upd m with
      | UWait tasks =>
          match pool_step orderTask_step j tasks (world m) with
          | (Returned tasks', w') => Returned (mkMachine w' (sem m) (UWait tasks') (sweeps m))
          | (Panicked, _) => Panicked
          end
      | _ => Returned m
      end
  | EvJoin =>
      match upd m with
      | UWait tasks =>
          if forallb order_done tasks
          then Returned (mkMachine (world m) (sem m) USelect (sweeps m))
          else Returned m
      | _ => Returned m
      end
  | EvSend g =>
      match sweeps m !! g, sem m with
      | Some SSend, Some O =>
          Returned (mkMachine (world m) (Some 1%nat) (upd m)
                              (<[g := SWait book_tasks]> (sweeps m)))
      | _, _ => Returned m
      end
  | EvBook g j =>
      match sweeps m !! g with
      | Some (SWait tasks) =>
          match pool_step bookTask_step j tasks (world m) with
          | (Returned tasks', w') =>
              Returned (mkMachine w' (sem m) (upd m) (<[g := SWait tasks']> (sweeps m)))
          | (Panicked, _) => Panicked
          end
      | _ => Returned m
      end
  | EvRecv g =>
      match sweeps m !! g, sem m with
      | Some (SWait tasks), Some (S n) =>
          if forallb book_done tasks
          then Returned (mkMachine (world m) (Some n) (upd m) (<[g := SExit]> (sweeps m)))
          else Returned m
      | _, _ => Returned m
      end
  end.

Fixpoint run (evs : list Event) (m : Machine) : Run Machine :=
  match evs with
  | [] => Returned m
  | ev :: evs' =>
      match step ev m with
      | Returned m' => run evs' m'
      | Panicked => Panicked
      end
  end.

(** A client on which [Update] has not been called yet. *)
Definition boot (w : World) : Machine := mkMachine w None UIdle [].

(** The sweeps that hold the token: past [c.sem <- struct{}{}] and not yet
    past [<-c.sem]. *)
Definition holds_token (s : BookSweep) : bool :=
  match s with SWait _ => true | _ => false end.

Definition in_flight (m : Machine) : nat :=
  length (filter (fun s => holds_token s = true) (sweeps m)).

(** The book tasks of [m] that are fetching or writing symbol [sym]. *)
Definition task_on (sym : string) (t : BookTask) : bool :=
  match t with
  | BFetch s => String.eqb s sym
  | BUpdate s _ _ => String.eqb s sym
  | BDone => false
  end.

Definition tasks_of (s : BookSweep) : list BookTask :=
  match s with SWait tasks => tasks | _ => [] end.

Definition running_on (sym : string) (m : Machine) : nat :=
  length (filter (fun t => task_on sym t = true) (flat_map tasks_of (sweeps m))).

End Goroutines.

(** ** Notions used in the statements *)
Section Notions.
Context `{E : Externals}.

(** An order in a status from which the specification allows no move. *)
Definition terminal (f : Fields) : Prop :=
  status f = StatusCompleted \/ status f = StatusCancelled.

Definition has_tracker (w : World) : Prop := is_Some (Tracker (client w)).

Definition has_book (w : World) : Prop := is_Some (OrderBookTracker (client w)).

(** The symbol a task is still working on. *)
Definition task_sym (t : BookTask) : option string :=
  match t with
  | BFetch s => Some s
  | BUpdate s _ _ => Some s
  | BDone => None
  end.

(** Task [i] of a sweep works on entry [i] of [allowed]. *)
Definition shaped (pool : list BookTask) : Prop :=
  forall i t s, pool !! i = Some t -> task_sym t = Some s -> allowed !! i = Some s.

(** The snapshot the order-book tracker of [w] holds for [sym]. *)
Definition snapshot (sym : string) (w : World)
    : option (OrderBookTracker.Quotes * OrderBookTracker.Quotes) :=
  OrderBookTracker (client w) ≫= fun bk => bk !! sym.

(** What the fetch of [sym] on the venue of [w] makes of the task. *)
Definition after_fetch (sym : string) (w : World) : BookTask :=
  match snd (fst (GetOrderBook sym (venue w))) with
  | Some _ => BDone
  | None => BUpdate sym (fst (fst (fst (GetOrderBook sym (venue w)))))
                        (snd (fst (fst (GetOrderBook sym (venue w)))))
  end.

(** What holds of the machine as long as [c.sem] is not replaced: the
    channel holds one value per sweep that is past its send, and there is
    at most one. *)
Record token_inv (m : Machine) : Prop := mk_token_inv {
  inv_sem : sem m = Some (in_flight m);
  inv_one : (in_flight m <= 1)%nat;
  inv_shape : forall g tasks, sweeps m !! g = Some (SWait tasks) -> shaped tasks;
  inv_book : sweeps m ≠ [] -> has_book (world m);
  inv_tracker : forall pool, upd m = UWait pool -> has_tracker (world m)
}.

(** The order-status tasks of a pool that have not fetched yet. *)
Definition awaiting_fetch (t : OrderTask) : bool :=
  match t with OFetch _ _ => true | _ => false end.

Definition pending_fetches (pool : list OrderTask) : nat :=
  length (filter (fun t => awaiting_fetch t = true) pool).

(** Modelled from the spec: the tracker's updateDetails as section 4.3
    words it, an upsert of the creation timestamp: whatever the tracker
    holds for the id, afterwards it holds an entry with the creation time
    it was given. *)
Definition upserts_details : Prop :=
  forall (id : Z) (sym : string) (accepted : Time) (old : option Fields),
    exists f, OrderTracker.upsert id sym accepted old = Some f
              /\ createdAt f = Some accepted.

(** The venue accepts the cancel calls for [ids], made in turn from the
    state [v]: the state it is in after them, or [None] when it rejects
    one. *)
Fixpoint cancels_accepted (key secret : string) (ids : list Z) (v : Venue)
    : option Venue :=
  match ids with
  | [] => Some v
  | id :: rest =>
      match CancelOrder key secret id v with
      | (None, v') => cancels_accepted key secret rest v'
      | (Some _, _) => None
      end
  end.

(** The record of [u] once the tracker has cancelled it. *)
Definition cancelled (u : OrderInfo) : OrderInfo :=
  mkInfo (OrderID u) (set_status StatusCancelled (fields u)).

(** The goroutines that exist have the tracker they call: [checkUpdate]
    starts order-status tasks only on a client with a tracker and
    order-book sweeps only on a client with an order-book tracker. *)
Definition guarded (m : Machine) : Prop :=
  (forall pool, upd m = UWait pool -> has_tracker (world m))
  /\ (sweeps m ≠ [] -> has_book (world m)).

(** What a client configured without one of the trackers never gets. *)
Definition respects_nil (w : World) (m : Machine) : Prop :=
  (OrderBookTracker (client w) = None ->
   sweeps m = [] /\ OrderBookTracker (client (world m)) = None)
  /\ (Tracker (client w) = None ->
      Tracker (client (world m)) = None
      /\ warnings (world m) = warnings w
      /\ forall pool, upd m ≠ UWait pool).

(** No goroutine assigns to [c.RefreshInterval]. *)
Definition same_interval (w : World) (m : Machine) : Prop :=
  RefreshInterval (client (world m)) = RefreshInterval (client w).

(** A sweep that is past its receive on [c.sem]. *)
Definition exited (s : BookSweep) : bool :=
  match s with SExit => true | _ => false end.

(** The sweeps of [m] that have not ended yet. *)
Definition unfinished (m : Machine) : nat :=
  length (filter (fun s => exited s = false) (sweeps m)).

End Notions.

(** ** A scripted venue

    A concrete instance of [Externals] on which the scenarios of the
    specification are run: prices, amounts and times are integers, and the
    venue's state says how it answers each call. *)
Module Mock.

Record venue : Type := mkVenue {
  next_id : Z;
  create_err : option error;
  cancels : nat;
  cancel_fails_at : option nat;
  balance : gmap string string * option error;
  book : string -> (list (Z * Z) * list (Z * Z)) * option error;
  by_status : string -> string -> list Order.t * option error
}.

Definition symbols : list string := ["eth_usdt"; "btc_usdt"].

Definition canonical (s : string) : string * option error :=
  if existsb (String.eqb (lower_bytes s)) symbols
  then (lower_bytes s, None)
  else ("", Some (RemoteError "invalid symbol")).

(** The scripted lowering outside ASCII knows the capital letters of
    Latin-1, U+00C0 to U+00DE without the multiplication sign, which UTF-8
    writes as the byte 0xC3 and a byte from 0x80 to 0x9E; it lowers them
    and the letters A to Z and keeps every other byte. *)
Definition latin1_capital (b : ascii) : bool :=
  let n := nat_of_ascii b in
  (128 <=? n)%nat && (n <=? 158)%nat && negb (n =? 151)%nat.

Fixpoint lower_latin1 (s : string) : string :=
  match s with
  | EmptyString => EmptyString
  | String a rest =>
      match rest with
      | String b s' =>
          if (nat_of_ascii a =? 195)%nat && latin1_capital b
          then String a (String (ascii_of_nat (nat_of_ascii b + 32)) (lower_latin1 s'))
          else String (lower_ascii a) (lower_latin1 rest)
      | EmptyString => String (lower_ascii a) EmptyString
      end
  end.

(** The scripted tracker accepts every id: it writes the symbol and the
    creation time it is given into the entry it holds, and for an id it
    does not hold it starts an entry with them. *)
Definition accept_details (id : Z) (sym : string) (accepted : Z)
    (old : option (entry Z Z)) : option (entry Z Z) :=
  match old with
  | Some (_, sd, st, amt, pr, _, completed) =>
      Some (sym, sd, st, amt, pr, Some accepted, completed)
  | None => Some (sym, "", "", 0, 0, Some accepted, None)
  end.

Definition place (key secret sym action : string) (kind : string)
    (amt : Z) (qty : Z) (pr : Z) (v : venue) : (Z * option error) * venue :=
  match create_err v with
  | Some e => ((0, Some e), v)
  | None =>
      ((next_id v, None),
       mkVenue (next_id v + 1) None (cancels v) (cancel_fails_at v)
               (balance v) (book v) (by_status v))
  end.

Definition withdraw (key secret : string) (id : Z) (v : venue) : option error * venue :=
  let v' := mkVenue (next_id v) (create_err v) (S (cancels v)) (cancel_fails_at v)
                    (balance v) (book v) (by_status v) in
  if bool_decide (cancel_fails_at v = Some (cancels v))
  then (Some (RemoteError "cancel rejected"), v')
  else (None, v').

Definition externals : Externals := {|
  float64 := Z;
  float64_zero := 0;
  Time := Z;
  Venue := venue;
  PriceType := string;
  PriceTypeMarket := "market";
  normalize := canonical;
  CreateOrder := place;
  CancelOrder := withdraw;
  GetBalance := fun _ _ v => (balance v, v);
  GetOrderBook := fun sym v => (book v sym, v);
  GetOrderByStatus := fun _ _ sym st _ v => (by_status v sym st, v);
  allowed := symbols;
  Statusees := [StatusOpened; StatusPartial; StatusCancelled; StatusCompleted];
  unixToTime := fun secs => secs * 1000;
  time_Now := fun n => 1700000000000 + Z.of_nat n;
  unicode_ToLower := lower_latin1;
  updateDetails := accept_details
|}.

(** A venue that accepts every call and has nothing to report. *)
Definition quiet : venue :=
  mkVenue 42 None 0 None (∅, None) (fun _ => (([], []), None)) (fun _ _ => ([], None)).

(** A client with a key, a secret, a refresh interval of 500 (which
    [Update] reads as milliseconds) and the trackers [tr] and [bk], in
    front of the venue [v]. *)
Definition world (tr : option (gmap Z (@Fields externals)))
    (bk : option (gmap string (list (Z * Z) * list (Z * Z)))) (v : venue)
    : @World externals :=
  @mkWorld externals (@mkClient externals "key" "secret" 500 tr bk) v 0 [].

End Mock.

(** ** Scenarios on the scripted venue *)

(** Order 42, as [Buy] records it and as a sweep leaves it once the venue
    has reported it completed. *)
Definition submitted_42 : @Fields Mock.externals :=
  @mkFields Mock.externals "btc_usdt" "buy" "submitted" 1 100 None None.

Definition completed_42 : @Fields Mock.externals :=
  @mkFields Mock.externals "btc_usdt" "buy" "completed" 1 100 None (Some 1700000000000).

(** A venue that reports order 42 among the completed orders on btc_usdt. *)
Definition reports_42_completed : Mock.venue :=
  Mock.mkVenue 42 None 0 None (∅, None) (fun _ => (([], []), None))
    (fun sym st =>
       if String.eqb sym "btc_usdt" && String.eqb st StatusCompleted
       then ([Order.mk 42 1600000000], None) else ([], None)).

(** Three live orders on eth_usdt and one on btc_usdt, and a venue that
    rejects the second cancel call it receives. *)
Definition live_order (sym : string) : @Fields Mock.externals :=
  @mkFields Mock.externals sym "buy" "opened" 1 100 None None.

Definition four_orders : gmap Z (@Fields Mock.externals) :=
  <[3 := live_order "eth_usdt"]> (<[2 := live_order "eth_usdt"]>
    (<[1 := live_order "eth_usdt"]> (<[5 := live_order "btc_usdt"]> ∅))).

Definition second_cancel_fails : Mock.venue :=
  Mock.mkVenue 42 None 0 (Some 1%nat) (∅, None) (fun _ => (([], []), None))
               (fun _ _ => ([], None)).

(** Balance maps with an upper-case and a lower-case key. *)
Definition upper_case_balance : Mock.venue :=
  Mock.mkVenue 42 None 0 None ({[ "BTC" := "1.5" ]}, None)
               (fun _ => (([], []), None)) (fun _ _ => ([], None)).

Definition lower_case_balance : Mock.venue :=
  Mock.mkVenue 42 None 0 None ({[ "btc" := "0.5" ]}, None)
               (fun _ => (([], []), None)) (fun _ _ => ([], None)).

(** A currency written with a letter outside ASCII: the bytes of E acute
    followed by TH, and the balance map that holds it in lower case. *)
Definition capital_e_acute : string :=
  String (ascii_of_nat 195) (String (ascii_of_nat 137) EmptyString).

Definition small_e_acute : string :=
  String (ascii_of_nat 195) (String (ascii_of_nat 169) EmptyString).

Definition accented_balance : Mock.venue :=
  Mock.mkVenue 42 None 0 None ({[ String.append small_e_acute "th" := "2.0" ]}, None)
               (fun _ => (([], []), None)) (fun _ _ => ([], None)).

(** Snapshots before and after a fetch. *)
Definition old_quotes : list (Z * Z) * list (Z * Z) := ([(99, 1)], [(101, 1)]).
Definition new_quotes : list (Z * Z) * list (Z * Z) := ([(100, 2)], [(102, 3)]).

(** The fetch for eth_usdt fails, the fetch for btc_usdt succeeds. *)
Definition eth_book_fails : Mock.venue :=
  Mock.mkVenue 42 None 0 None (∅, None)
    (fun sym => if String.eqb sym "btc_usdt" then (new_quotes, None)
                else (([], []), Some (RemoteError "timeout")))
    (fun _ _ => ([], None)).

Definition both_books_old : gmap string (list (Z * Z) * list (Z * Z)) :=
  <["btc_usdt" := old_quotes]> (<["eth_usdt" := old_quotes]> ∅).

(** The fetch of the opened orders on eth_usdt fails. *)
Definition eth_opened_fails : Mock.venue :=
  Mock.mkVenue 42 None 0 None (∅, None) (fun _ => (([], []), None))
    (fun sym st =>
       if String.eqb sym "eth_usdt" && String.eqb st StatusOpened
       then ([], Some (RemoteError "timeout")) else ([], None)).

(** * Properties *)

(** ** Trading operations *)

Section TrackerLemmas.
Context `{E : Externals}.

Lemma NewOrder_lookup (sym action st : string) (id : Z) (amt pr : float64)
    (tr : gmap Z Fields) :
  OrderTracker.NewOrder sym action st id amt pr tr !! id
  = Some (mkFields sym action st amt pr None None).
Proof. unfold OrderTracker.NewOrder. apply lookup_insert_eq. Qed.

Lemma NewOrder_frame (sym action st : string) (id id' : Z) (amt pr : float64)
    (tr : gmap Z Fields) :
  id' ≠ id ->
  OrderTracker.NewOrder sym action st id amt pr tr !! id' = tr !! id'.
Proof. intros Hne. unfold OrderTracker.NewOrder. by apply lookup_insert_ne. Qed.

Lemma Cancel_lookup (id : Z) (tr : gmap Z Fields) :
  OrderTracker.Cancel id tr !! id = set_status StatusCancelled <$> tr !! id.
Proof. unfold OrderTracker.Cancel. apply lookup_alter_eq. Qed.

Lemma Cancel_frame (id id' : Z) (tr : gmap Z Fields) :
  id' ≠ id -> OrderTracker.Cancel id tr !! id' = tr !! id'.
Proof. intros Hne. unfold OrderTracker.Cancel. by apply lookup_alter_ne. Qed.

Lemma Complete_lookup (id : Z) (at_ : Time) (tr : gmap Z Fields) :
  OrderTracker.Complete id at_ tr !! id = set_completed at_ <$> tr !! id.
Proof. unfold OrderTracker.Complete. apply lookup_alter_eq. Qed.

Lemma Complete_frame (id id' : Z) (at_ : Time) (tr : gmap Z Fields) :
  id' ≠ id -> OrderTracker.Complete id at_ tr !! id' = tr !! id'.
Proof. intros Hne. unfold OrderTracker.Complete. by apply lookup_alter_ne. Qed.

Lemma UpdateOrderDetails_lookup (id : Z) (sym : string) (acc : Time) (tr : gmap Z Fields) :
  OrderTracker.UpdateOrderDetails id sym acc tr !! id
  = OrderTracker.upsert id sym acc (tr !! id).
Proof. unfold OrderTracker.UpdateOrderDetails. apply lookup_partial_alter_eq. Qed.

Lemma UpdateOrderDetails_frame (id id' : Z) (sym : string) (acc : Time) (tr : gmap Z Fields) :
  id' ≠ id -> OrderTracker.UpdateOrderDetails id sym acc tr !! id' = tr !! id'.
Proof.
  intros Hne. unfold OrderTracker.UpdateOrderDetails. by apply lookup_partial_alter_ne.
Qed.

End TrackerLemmas.

(** Unfolding one layer of the monad. *)
Ltac run_monad :=
  unfold mbind, mret, M_bind, M_ret, getClient, remote, tracker_call, tracker_read,
    book_call, time_now, Warningf; cbn.

Section RunLemmas.
Context `{E : Externals}.

(** The two ways [Cancel] runs on a client with a tracker. *)
Lemma Cancel_run (orderID : Z) (w : World) (tr : gmap Z Fields)
    (err : option error) (v' : Venue) :
  Tracker (client w) = Some tr ->
  CancelOrder (Key (client w)) (Secret (client w)) orderID (venue w) = (err, v') ->
  Client.Cancel orderID w =
    match err with
    | Some e => (Returned (None, Some e), set_venue v' w)
    | None =>
        let tr' := OrderTracker.Cancel orderID tr in
        (Returned (Some (fst (OrderTracker.Get orderID tr')),
                   snd (OrderTracker.Get orderID tr')),
         set_tracker tr' (set_venue v' w))
    end.
Proof.
  intros Htr Hcancel. unfold Client.Cancel. run_monad. rewrite Hcancel. cbn.
  destruct err as [e|]; cbn; [reflexivity|].
  rewrite Htr. cbn. by destruct (OrderTracker.Get _ _).
Qed.

Lemma Cancel_absent (id : Z) (tr : gmap Z Fields) :
  tr !! id = None -> OrderTracker.Cancel id tr = tr.
Proof.
  intros Hf. unfold OrderTracker.Cancel. apply map_eq. intros k.
  destruct (decide (k = id)) as [->|Hne].
  - by rewrite lookup_alter_eq, Hf.
  - by rewrite lookup_alter_ne.
Qed.

(** The loop body of the order-status task, status by status. *)
Lemma reconcile_opened (sym st : string) (order : Order.t) (w : World)
    (tr : gmap Z Fields) :
  Tracker (client w) = Some tr ->
  st = StatusOpened \/ st = StatusPartial ->
  reconcile sym st order w =
    (Returned tt,
     set_tracker (OrderTracker.UpdateOrderDetails (Order.OrderID order) sym
                    (unixToTime (Order.CreateDate order)) tr) w).
Proof.
  intros Htr Hst. unfold reconcile.
  replace (String.eqb st StatusOpened || String.eqb st StatusPartial) with true
    by (destruct Hst as [-> | ->]; reflexivity).
  run_monad. by rewrite Htr.
Qed.

Lemma reconcile_cancelled (sym : string) (order : Order.t) (w : World)
    (tr : gmap Z Fields) :
  Tracker (client w) = Some tr ->
  reconcile sym StatusCancelled order w =
    (Returned tt, set_tracker (OrderTracker.Cancel (Order.OrderID order) tr) w).
Proof. intros Htr. unfold reconcile. cbn. run_monad. by rewrite Htr. Qed.

Lemma reconcile_completed (sym : string) (order : Order.t) (w : World)
    (tr : gmap Z Fields) :
  Tracker (client w) = Some tr ->
  reconcile sym StatusCompleted order w =
    (Returned tt,
     set_tracker (OrderTracker.Complete (Order.OrderID order) (time_Now (clock w)) tr)
       (mkWorld (client w) (venue w) (S (clock w)) (warnings w))).
Proof. intros Htr. unfold reconcile. cbn. run_monad. by rewrite Htr. Qed.

Lemma reconcile_other (sym st : string) (order : Order.t) (w : World) :
  st ≠ StatusOpened -> st ≠ StatusPartial -> st ≠ StatusCancelled ->
  st ≠ StatusCompleted ->
  reconcile sym st order w = (Returned tt, w).
Proof.
  intros H1 H2 H3 H4. unfold reconcile.
  apply String.eqb_neq in H1, H2, H3, H4. by rewrite H1, H2, H3, H4.
Qed.

(** With a tracker in place the loop body returns, and the tracker stays in
    place. *)
Lemma reconcile_returns (sym st : string) (order : Order.t) (w : World)
    (tr : gmap Z Fields) :
  Tracker (client w) = Some tr ->
  exists w' tr',
    reconcile sym st order w = (Returned tt, w')
    /\ Tracker (client w') = Some tr'
    /\ OrderBookTracker (client w') = OrderBookTracker (client w).
Proof.
  intros Htr.
  destruct (decide (st = StatusOpened)) as [H1|H1];
    [eexists _, _; split; [apply (reconcile_opened _ _ _ _ _ Htr); by left|done]|].
  destruct (decide (st = StatusPartial)) as [H2|H2];
    [eexists _, _; split; [apply (reconcile_opened _ _ _ _ _ Htr); by right|done]|].
  destruct (decide (st = StatusCancelled)) as [->|H3];
    [eexists _, _; split; [apply (reconcile_cancelled _ _ _ _ Htr)|done]|].
  destruct (decide (st = StatusCompleted)) as [->|H4];
    [eexists _, _; split; [apply (reconcile_completed _ _ _ _ Htr)|done]|].
  exists w, tr. split; [by apply reconcile_other|done].
Qed.

(** The loop body at a glance: it returns, works on the entry of the
    order's id alone, and which call it makes depends on the status of the
    task only. *)
Lemma reconcile_effect (sym st : string) (order : Order.t) (w : World)
    (tr : gmap Z Fields) :
  Tracker (client w) = Some tr ->
  exists w' tr',
    reconcile sym st order w = (Returned tt, w')
    /\ Tracker (client w') = Some tr'
    /\ (forall id, id ≠ Order.OrderID order -> tr' !! id = tr !! id)
    /\ (st = StatusOpened \/ st = StatusPartial ->
        tr' = OrderTracker.UpdateOrderDetails (Order.OrderID order) sym
                (unixToTime (Order.CreateDate order)) tr
        /\ w' = set_tracker tr' w)
    /\ (st = StatusCancelled ->
        tr' = OrderTracker.Cancel (Order.OrderID order) tr /\ w' = set_tracker tr' w)
    /\ (st = StatusCompleted ->
        tr' = OrderTracker.Complete (Order.OrderID order) (time_Now (clock w)) tr
        /\ clock w' = S (clock w))
    /\ (st ≠ StatusOpened -> st ≠ StatusPartial -> st ≠ StatusCancelled ->
        st ≠ StatusCompleted -> w' = w).
Proof.
  intros Htr.
  destruct (decide (st = StatusOpened \/ st = StatusPartial)) as [Hop|Hop].
  { eexists _, _. split; [by apply (reconcile_opened _ _ _ _ _ Htr)|].
    split; [reflexivity|].
    split; [intros id Hid; by apply UpdateOrderDetails_frame|].
    split; [done|].
    split; [intros ->; destruct Hop as [H|H]; discriminate H|].
    split; [intros ->; destruct Hop as [H|H]; discriminate H|].
    intros H1 H2. destruct Hop; contradiction. }
  destruct (decide (st = StatusCancelled)) as [->|Hca].
  { eexists _, _. split; [by apply (reconcile_cancelled _ _ _ _ Htr)|].
    split; [reflexivity|].
    split; [intros id Hid; by apply Cancel_frame|].
    split; [intros [H|H]; discriminate H|]. split; [done|].
    split; [intros H; discriminate H|]. intros _ _ H. contradiction. }
  destruct (decide (st = StatusCompleted)) as [->|Hco].
  { eexists _, _. split; [by apply (reconcile_completed _ _ _ _ Htr)|].
    split; [reflexivity|].
    split; [intros id Hid; by apply Complete_frame|].
    split; [intros [H|H]; discriminate H|].
    split; [intros H; discriminate H|]. split; [done|].
    intros _ _ _ H. contradiction. }
  exists w, tr. split; [apply reconcile_other; tauto|]. split; [done|].
  split; [done|]. split; [tauto|]. split; [tauto|]. split; [tauto|]. done.
Qed.

(** The three ways [Buy] and [Sell] run on a client with a tracker. *)
Lemma Place_run (buy : bool) (sym : string) (pr amt : float64) (w : World)
    (tr : gmap Z Fields) :
  Tracker (client w) = Some tr ->
  (forall s e, normalize sym = (s, Some e) ->
     (if buy then Client.Buy sym pr amt w else Client.Sell sym pr amt w)
       = (Returned (0, Some e), w))
  /\ forall sym' id err v',
       normalize sym = (sym', None) ->
       CreateOrder (Key (client w)) (Secret (client w)) sym'
                   (if buy then "buy" else "sell") PriceTypeMarket amt 1 pr (venue w)
         = ((id, err), v') ->
       (if buy then Client.Buy sym pr amt w else Client.Sell sym pr amt w) =
         match err with
         | Some e => (Returned (id, Some e), set_venue v' w)
         | None =>
             (Returned (id, None),
              set_tracker (OrderTracker.NewOrder sym'
                             (if buy then ActionBuy else ActionSell)
                             StatusSubmitted id amt pr tr) (set_venue v' w))
         end.
Proof.
  intros Htr. split.
  - intros s e Hnorm. destruct buy; unfold Client.Buy, Client.Sell; by rewrite Hnorm.
  - intros sym' id err v' Hnorm Hcreate.
    destruct buy; unfold Client.Buy, Client.Sell; rewrite Hnorm; run_monad;
      rewrite Hcreate; cbn; destruct err as [e|]; cbn; try reflexivity;
      by rewrite Htr.
Qed.

Lemma orderTask_loop_step (sym st : string) (order : Order.t) (rest : list Order.t)
    (w w' : World) :
  reconcile sym st order w = (Returned tt, w') ->
  orderTask_step (OLoop sym st (order :: rest)) w = (Returned (OLoop sym st rest), w').
Proof. intros H. cbn. unfold mbind, M_bind. by rewrite H. Qed.

End RunLemmas.

(** C1. [Buy] and [Sell] are atomic towards the tracker.  On a client with a
    tracker: when [normalize] rejects the symbol nothing is called and
    nothing changes; otherwise the call returns the pair that [CreateOrder]
    returned, error included.  When that pair carries an error the tracker
    is as it was; when it carries none the tracker has been given exactly
    the entry of the returned id, with status submitted, the normalized
    symbol, the side, the amount and the price, every other id being as
    before. *)
Theorem Place_atomic `{E : Externals} (buy : bool) (sym : string)
    (pr amt : float64) (w : World) (tr : gmap Z Fields) :
  Tracker (client w) = Some tr ->
  (forall (s : string) (e : error),
     normalize sym = (s, Some e) ->
     (if buy then Client.Buy sym pr amt w else Client.Sell sym pr amt w)
       = (Returned (0, Some e), w))
  /\ forall (sym' : string) (id : Z) (err : option error) (v' : Venue),
       normalize sym = (sym', None) ->
       CreateOrder (Key (client w)) (Secret (client w)) sym'
                   (if buy then "buy" else "sell") PriceTypeMarket amt 1 pr (venue w)
         = ((id, err), v') ->
       exists w',
         (if buy then Client.Buy sym pr amt w else Client.Sell sym pr amt w)
           = (Returned (id, err), w')
         /\ venue w' = v'
         /\ match err with
            | Some _ => Tracker (client w') = Some tr
            | None =>
                exists tr',
                  Tracker (client w') = Some tr'
                  /\ tr' = OrderTracker.NewOrder sym'
                             (if buy then ActionBuy else ActionSell)
                             StatusSubmitted id amt pr tr
                  /\ tr' !! id = Some (mkFields sym'
                                         (if buy then ActionBuy else ActionSell)
                                         StatusSubmitted amt pr None None)
                  /\ OrderTracker.Status id tr' = (StatusSubmitted, None)
                  /\ forall id', id' ≠ id -> tr' !! id' = tr !! id'
            end.
Proof.
  intros Htr. split.
  - intros s e Hnorm. destruct buy; unfold Client.Buy, Client.Sell; by rewrite Hnorm.
  - intros sym' id err v' Hnorm Hcreate.
    destruct buy; unfold Client.Buy, Client.Sell; rewrite Hnorm; run_monad;
      rewrite Hcreate; cbn; destruct err as [e|]; cbn.
    1,3: eexists; split; [reflexivity|]; cbn; split; [reflexivity|]; exact Htr.
    all: rewrite Htr; cbn; eexists; split; [reflexivity|]; split; [reflexivity|];
      eexists; split; [reflexivity|]; split; [reflexivity|];
      split; [apply NewOrder_lookup|]; split;
      [unfold OrderTracker.Status; by rewrite NewOrder_lookup
      | intros id' Hne; by apply NewOrder_frame].
Qed.

Lemma Place_atomic_witness :
  exists w',
    @Client.Buy Mock.externals "ETH_USDT" 100 1 (Mock.world (Some ∅) None Mock.quiet)
      = (Returned (42, None), w')
    /\ (@Tracker Mock.externals (client w') ≫= fun tr => tr !! 42)
       = Some (@mkFields Mock.externals "eth_usdt" "buy" "submitted" 1 100 None None).
Proof.
  destruct (@Place_atomic Mock.externals true "ETH_USDT" 100 1
              (Mock.world (Some ∅) None Mock.quiet) ∅ eq_refl) as [_ Hplaced].
  destruct (Hplaced "eth_usdt" 42 None
              (Mock.mkVenue 43 None 0 None (∅, None)
                 (fun _ => (([], []), None)) (fun _ _ => ([], None)))
              eq_refl eq_refl)
    as (w' & Hrun & _ & tr' & Htr' & _ & Hentry & _).
  exists w'. split; [exact Hrun|]. rewrite Htr'. exact Hentry.
Defined.

(** C2. [Cancel] on a client with a tracker.  The venue is called once.
    When that call fails, its error is returned and the tracker is as it
    was.  When it succeeds, the tracker's [Cancel] has been applied to the
    id and the call returns what the tracker's [Get] then answers: for a
    tracked id the refreshed record, in status cancelled, and no error; for
    an id the tracker does not hold the error NotTracked, the tracker being
    as it was.  In every case the venue is in the state the one cancel call
    left it in. *)
Theorem Cancel_outcomes `{E : Externals} (orderID : Z) (w : World)
    (tr : gmap Z Fields) (err : option error) (v' : Venue) :
  Tracker (client w) = Some tr ->
  CancelOrder (Key (client w)) (Secret (client w)) orderID (venue w) = (err, v') ->
  exists r w',
    Client.Cancel orderID w = (Returned r, w')
    /\ venue w' = v'
    /\ match err with
       | Some e => r = (None, Some e) /\ w' = set_venue v' w /\ Tracker (client w') = Some tr
       | None =>
           w' = set_tracker (OrderTracker.Cancel orderID tr) (set_venue v' w)
           /\ match tr !! orderID with
              | Some f =>
                  r = (Some (mkInfo orderID (set_status StatusCancelled f)), None)
                  /\ OrderTracker.Cancel orderID tr !! orderID
                     = Some (set_status StatusCancelled f)
              | None =>
                  r = (Some zeroInfo, Some (NotTracked orderID))
                  /\ OrderTracker.Cancel orderID tr = tr
              end
       end.
Proof.
  intros Htr Hcancel.
  unfold Client.Cancel. run_monad. rewrite Hcancel. cbn.
  destruct err as [e|]; cbn.
  - eexists _, _. repeat split; try reflexivity. exact Htr.
  - rewrite Htr. cbn. unfold OrderTracker.Get. rewrite Cancel_lookup.
    destruct (tr !! orderID) as [f|] eqn:Hf; cbn.
    + eexists _, _. repeat split; reflexivity.
    + eexists _, _. repeat split; try reflexivity. by apply Cancel_absent.
Qed.

Lemma Cancel_outcomes_witness :
  exists w',
    @Client.Cancel Mock.externals 7 (Mock.world (Some ∅) None Mock.quiet)
      = (Returned (Some (@zeroInfo Mock.externals), Some (NotTracked 7)), w')
    /\ @Tracker Mock.externals (client w') = Some ∅.
Proof.
  destruct (@Cancel_outcomes Mock.externals 7 (Mock.world (Some ∅) None Mock.quiet) ∅ None
              (Mock.mkVenue 42 None 1 None (∅, None)
                 (fun _ => (([], []), None)) (fun _ _ => ([], None)))
              eq_refl eq_refl)
    as (r & w' & Hrun & _ & Hw' & Hr).
  change ((∅ : gmap Z (@Fields Mock.externals)) !! 7) with (@None (@Fields Mock.externals)) in Hr.
  destruct Hr as [-> Hsame].
  exists w'. split; [exact Hrun|]. rewrite Hw'. cbn. by rewrite Hsame.
Defined.

(** ** The order-status sweep *)

(** The scripted tracker is an upsert in the sense of section 4.3. *)
Lemma scripted_tracker_upserts : @upserts_details Mock.externals.
Proof. intros id sym accepted [f|]; eexists; split; reflexivity. Qed.

(** C3. What an order-status task does with the orders the venue returns.
    A successful fetch queues every returned order, and the task then takes
    them one per step; a step works on the entry of the order's id and
    leaves every other entry alone.  For status opened or partially-filled
    the step calls [UpdateOrderDetails] with the order's id, the task's
    symbol and the creation time converted by [unixToTime] from the venue's
    [CreateDate], whether the tracker holds the id or not: the entry is
    what the tracker's upsert makes of the old one with that creation time,
    and with a tracker whose updateDetails is the upsert of section 4.3 the
    id is tracked afterwards with that creation time.  For status cancelled
    it calls [Cancel], so a tracked entry becomes cancelled; for status
    completed it reads the local clock and calls [Complete] with that
    reading, so a tracked entry becomes completed and is stamped with the
    local reading, whatever the venue's record holds. *)
Theorem sweep_order_effect `{E : Externals} (sym st : string) (order : Order.t)
    (rest : list Order.t) (w : World) (tr : gmap Z Fields) :
  Tracker (client w) = Some tr ->
  (forall (orders : list Order.t) (v' : Venue),
     GetOrderByStatus (Key (client w)) (Secret (client w)) sym st (-1) (venue w)
       = ((orders, None), v') ->
     orderTask_step (OFetch sym st) w = (Returned (OLoop sym st orders), set_venue v' w))
  /\ exists w' tr',
      orderTask_step (OLoop sym st (order :: rest)) w = (Returned (OLoop sym st rest), w')
      /\ Tracker (client w') = Some tr'
      /\ (forall id, id ≠ Order.OrderID order -> tr' !! id = tr !! id)
      /\ (st = StatusOpened \/ st = StatusPartial ->
          let accepted := unixToTime (Order.CreateDate order) in
          tr' = OrderTracker.UpdateOrderDetails (Order.OrderID order) sym accepted tr
          /\ w' = set_tracker tr' w
          /\ tr' !! Order.OrderID order
             = OrderTracker.upsert (Order.OrderID order) sym accepted
                 (tr !! Order.OrderID order)
          /\ (upserts_details ->
              exists f', tr' !! Order.OrderID order = Some f'
                         /\ createdAt f' = Some accepted))
      /\ (st = StatusCancelled ->
          tr' = OrderTracker.Cancel (Order.OrderID order) tr
          /\ w' = set_tracker tr' w
          /\ tr' !! Order.OrderID order
             = set_status StatusCancelled <$> tr !! Order.OrderID order)
      /\ (st = StatusCompleted ->
          let observed := time_Now (clock w) in
          tr' = OrderTracker.Complete (Order.OrderID order) observed tr
          /\ clock w' = S (clock w)
          /\ tr' !! Order.OrderID order
             = set_completed observed <$> tr !! Order.OrderID order).
Proof.
  intros Htr. split.
  - intros orders v' Hfetch. cbn. run_monad. by rewrite Hfetch.
  - destruct (reconcile_effect sym st order w tr Htr)
      as (w' & tr' & Hrun & Htr' & Hframe & Hop & Hca & Hco & _).
    exists w', tr'.
    split; [by apply orderTask_loop_step|]. split; [exact Htr'|].
    split; [exact Hframe|]. split; [|split].
    + intros Hst. destruct (Hop Hst) as [-> ->]. cbn.
      split; [reflexivity|]. split; [reflexivity|].
      rewrite UpdateOrderDetails_lookup. split; [reflexivity|].
      intros Hupsert.
      destruct (Hupsert (Order.OrderID order) sym (unixToTime (Order.CreateDate order))
                  (tr !! Order.OrderID order)) as (f' & Hf' & Hcreated).
      by exists f'.
    + intros Hst. destruct (Hca Hst) as [-> ->].
      split; [reflexivity|]. split; [reflexivity|]. apply Cancel_lookup.
    + intros Hst. destruct (Hco Hst) as [-> ->]. cbn.
      split; [reflexivity|]. split; [reflexivity|]. apply Complete_lookup.
Qed.

Lemma sweep_order_effect_witness :
  exists w',
    @orderTask_step Mock.externals
        (OLoop "btc_usdt" "opened" [Order.mk 99 1600000000])
        (Mock.world (Some {[ 42 := submitted_42 ]}) None Mock.quiet)
      = (Returned (OLoop "btc_usdt" "opened" []), w')
    /\ (exists f', (@Tracker Mock.externals (client w') ≫= fun tr' => tr' !! 99) = Some f'
                   /\ @createdAt Mock.externals f' = Some 1600000000000)
    /\ (@Tracker Mock.externals (client w') ≫= fun tr' => tr' !! 42) = Some submitted_42.
Proof.
  destruct (@sweep_order_effect Mock.externals "btc_usdt" "opened"
              (Order.mk 99 1600000000) []
              (Mock.world (Some {[ 42 := submitted_42 ]}) None Mock.quiet)
              {[ 42 := submitted_42 ]} eq_refl)
    as (_ & w' & tr' & Hstep & Htr' & Hframe & Hopened & _).
  destruct (Hopened (or_introl eq_refl)) as (_ & _ & _ & Hupsert).
  exists w'. split; [exact Hstep|]. rewrite Htr'. cbn. split.
  - exact (Hupsert scripted_tracker_upserts).
  - rewrite (Hframe 42); [reflexivity|discriminate].
Defined.

(** ** Orders that have reached a terminal status *)

(** The scenario of section 8 of the specification: a buy order gets id 42
    and status submitted, a sweep reports it completed, and [Cancel] is then
    called on it while the venue accepts the cancel call.  [Cancel] does
    not fail: it returns the tracker's record of order 42 and no error. *)
Lemma Cancel_on_completed_order_succeeds :
  exists (w1 w2 w3 : @World Mock.externals) (info : @OrderInfo Mock.externals),
    @Client.Buy Mock.externals "btc_usdt" 100 1
        (Mock.world (Some ∅) None reports_42_completed)
      = (Returned (42, None), w1)
    /\ run_pool orderTask_step [0; 0; 0]%nat [OFetch "btc_usdt" StatusCompleted] w1
       = (Returned [ODone], w2)
    /\ (@Tracker Mock.externals (client w2) ≫= fun tr => @status Mock.externals <$> tr !! 42)
       = Some StatusCompleted
    /\ Client.Cancel 42 w2 = (Returned (Some info, None), w3)
    /\ OrderID info = 42.
Proof.
  eexists _, _, _, _.
  split; [reflexivity|]. split; [reflexivity|]. split; [reflexivity|].
  split; reflexivity.
Qed.

(** C4, as the code has it.  Neither [Cancel] nor the order-status task
    reads the status an order has: for a tracked order that is completed or
    cancelled they make the calls they make for any other order.  The task
    hands a report for its id to the tracker's [UpdateOrderDetails],
    [Cancel] or [Complete], according to the reported status alone, and
    [Cancel] calls the venue and then the tracker's [Cancel] and [Get].
    [Cancel] returns exactly the error of the remote cancel call: when that
    call fails the tracker is as it was, and when it succeeds [Cancel]
    returns the tracker's record of the id and no error. *)
Theorem terminal_order_updates `{E : Externals} (id : Z) (f : Fields)
    (tr : gmap Z Fields) (w : World) :
  Tracker (client w) = Some tr ->
  tr !! id = Some f ->
  terminal f ->
  (forall (sym st : string) (order : Order.t) (rest : list Order.t),
     Order.OrderID order = id ->
     exists w' tr',
       orderTask_step (OLoop sym st (order :: rest)) w = (Returned (OLoop sym st rest), w')
       /\ Tracker (client w') = Some tr'
       /\ (st = StatusOpened \/ st = StatusPartial ->
           tr' = OrderTracker.UpdateOrderDetails id sym
                   (unixToTime (Order.CreateDate order)) tr)
       /\ (st = StatusCancelled -> tr' = OrderTracker.Cancel id tr)
       /\ (st = StatusCompleted ->
           tr' = OrderTracker.Complete id (time_Now (clock w)) tr))
  /\ (forall (err : option error) (v' : Venue),
        CancelOrder (Key (client w)) (Secret (client w)) id (venue w) = (err, v') ->
        exists r w',
          Client.Cancel id w = (Returned r, w')
          /\ snd r = err
          /\ venue w' = v'
          /\ match err with
             | Some _ => fst r = None /\ Tracker (client w') = Some tr
             | None =>
                 Tracker (client w') = Some (OrderTracker.Cancel id tr)
                 /\ exists info, fst r = Some info /\ OrderID info = id
             end).
Proof.
  intros Htr Hf Hterm. split.
  - intros sym st order rest <-.
    destruct (reconcile_effect sym st order w tr Htr)
      as (w' & tr' & Hrun & Htr' & _ & Hop & Hca & Hco & _).
    exists w', tr'. split; [by apply orderTask_loop_step|]. split; [exact Htr'|].
    split; [intros Hst; by destruct (Hop Hst)|].
    split; intros Hst; [by destruct (Hca Hst) | by destruct (Hco Hst)].
  - intros err v' Hcancel.
    rewrite (Cancel_run _ _ _ _ _ Htr Hcancel).
    destruct err as [e|].
    + eexists _, _. cbn. by repeat split.
    + cbn. unfold OrderTracker.Get. rewrite Cancel_lookup, Hf. cbn.
      eexists _, _. split; [reflexivity|]. split; [reflexivity|].
      split; [reflexivity|]. split; [reflexivity|]. by eexists.
Qed.

Lemma terminal_order_updates_witness :
  exists r w' info,
    @Client.Cancel Mock.externals 42
        (Mock.world (Some {[ 42 := completed_42 ]}) None Mock.quiet)
      = (Returned r, w')
    /\ snd r = None
    /\ fst r = Some info
    /\ OrderID info = 42.
Proof.
  assert (Htracked : ({[ 42 := completed_42 ]} : gmap Z (@Fields Mock.externals)) !! 42
                     = Some completed_42) by reflexivity.
  destruct (@terminal_order_updates Mock.externals 42 completed_42
              {[ 42 := completed_42 ]}
              (Mock.world (Some {[ 42 := completed_42 ]}) None Mock.quiet)
              eq_refl Htracked (or_introl eq_refl)) as [_ Hcancel].
  destruct (Hcancel None
              (Mock.mkVenue 42 None 1 None (∅, None)
                 (fun _ => (([], []), None)) (fun _ _ => ([], None)))
              eq_refl)
    as (r & w' & Hrun & Herr & _ & _ & info & Hr & Hid).
  exists r, w', info. split; [exact Hrun|]. split; [exact Herr|].
  split; [exact Hr | exact Hid].
Defined.

(** ** Batch cancellation *)

Section BatchCancel.
Context `{E : Externals}.

Lemma Executed_spec (u : OrderInfo) (tr : gmap Z Fields) :
  u ∈ OrderTracker.Executed tr <->
  tr !! OrderID u = Some (fields u) /\ live (fields u) = true.
Proof.
  unfold OrderTracker.Executed, OrderTracker.infos.
  rewrite list_elem_of_fmap. split.
  - intros ([k f] & -> & Hin). apply list_elem_of_filter in Hin as [Hlive Hin].
    apply elem_of_map_to_list in Hin. done.
  - intros [Hf Hlive]. exists (OrderID u, fields u). split; [by destruct u|].
    apply list_elem_of_filter. split; [done|]. by apply elem_of_map_to_list.
Qed.

Lemma Executed_NoDup (tr : gmap Z Fields) :
  NoDup (OrderID <$> OrderTracker.Executed tr).
Proof.
  unfold OrderTracker.Executed, OrderTracker.infos.
  rewrite <- list_fmap_compose.
  change (NoDup ((filter (fun kf : Z * Fields => live (snd kf) = true) (map_to_list tr)).*1)).
  eapply sublist_NoDup; [apply (NoDup_fst_map_to_list tr)|].
  apply fmap_sublist, sublist_filter.
Qed.

(** [CancelMarket] runs the loop of [CancelAll] over the orders on the
    symbol. *)
Lemma CancelMarket_loop_filter (sym : string) (orders : list OrderInfo)
    (result : list (option OrderInfo)) (w : World) :
  Client.CancelMarket_loop sym orders result w
  = Client.CancelAll_loop (filter (fun u => TradePair u = sym) orders) result w.
Proof.
  revert result w. induction orders as [|u orders IH]; intros result w; [reflexivity|].
  cbn [Client.CancelMarket_loop].
  destruct (String.eqb_spec (TradePair u) sym) as [Heq|Hne].
  - rewrite filter_cons_True by done. cbn [Client.CancelAll_loop].
    unfold mbind, M_bind.
    destruct (Client.Cancel (OrderID u) w) as [[[info [e|]]|] w1]; try reflexivity.
    apply IH.
  - rewrite filter_cons_False by done. apply IH.
Qed.

(** The loop stops at the first cancellation that returns an error. *)
Lemma CancelAll_loop_stops (pre post : list OrderInfo) (v : OrderInfo)
    (result done : list (option OrderInfo)) (w w1 w2 : World)
    (info : option OrderInfo) (e : error) :
  Client.CancelAll_loop pre result w = (Returned (done, None), w1) ->
  Client.Cancel (OrderID v) w1 = (Returned (info, Some e), w2) ->
  Client.CancelAll_loop (pre ++ v :: post) result w = (Returned (done, Some e), w2).
Proof.
  revert result w. induction pre as [|u pre IH]; intros result w Hpre Hv.
  - cbn in Hpre. injection Hpre as -> ->. cbn. unfold mbind, M_bind. by rewrite Hv.
  - cbn in Hpre |- *. unfold mbind, M_bind in Hpre |- *.
    destruct (Client.Cancel (OrderID u) w) as [[[info' [e'|]]|] w']; try discriminate Hpre.
    by apply IH.
Qed.

(** Setting the venue and the tracker a client already has changes
    nothing. *)
Lemma set_same (w : World) (tr : gmap Z Fields) :
  Tracker (client w) = Some tr -> set_tracker tr (set_venue (venue w) w) = w.
Proof. destruct w as [[k s ri t b] v c l]. cbn. by intros ->. Qed.

(** As long as the venue accepts the cancel calls, the loop cancels its
    targets one after the other: it collects their refreshed records, the
    tracker holds them cancelled, and no other entry is touched. *)
Lemma CancelAll_loop_accepted (targets : list OrderInfo)
    (result : list (option OrderInfo)) (w : World) (tr : gmap Z Fields) (v1 : Venue) :
  Tracker (client w) = Some tr ->
  (forall u, u ∈ targets -> tr !! OrderID u = Some (fields u)) ->
  NoDup (OrderID <$> targets) ->
  cancels_accepted (Key (client w)) (Secret (client w)) (OrderID <$> targets) (venue w)
    = Some v1 ->
  exists tr1,
    Client.CancelAll_loop targets result w
      = (Returned (result ++ ((fun u => Some (cancelled u)) <$> targets), None),
         set_tracker tr1 (set_venue v1 w))
    /\ (forall u, u ∈ targets ->
          tr1 !! OrderID u = Some (set_status StatusCancelled (fields u)))
    /\ (forall k, k ∉ OrderID <$> targets -> tr1 !! k = tr !! k).
Proof.
  revert result w tr. induction targets as [|u targets IH];
    intros result w tr Htr Hin Hnd Hacc.
  - cbn in Hacc. injection Hacc as <-. exists tr. cbn.
    rewrite app_nil_r, (set_same w tr Htr).
    split; [done|]. split; [|done]. intros u Hu. by apply elem_of_nil in Hu.
  - cbn in Hacc.
    destruct (CancelOrder (Key (client w)) (Secret (client w)) (OrderID u) (venue w))
      as [[e|] v'] eqn:Hcancel; [discriminate Hacc|].
    rewrite fmap_cons in Hnd. apply NoDup_cons in Hnd as [Hfresh Hnd].
    destruct (IH (result ++ [Some (cancelled u)])
                (set_tracker (OrderTracker.Cancel (OrderID u) tr) (set_venue v' w))
                (OrderTracker.Cancel (OrderID u) tr) eq_refl)
      as (tr1 & Hrun & Hdone & Hframe); [|done|exact Hacc|].
    { intros u' Hu'. rewrite Cancel_frame; [apply Hin; by apply list_elem_of_further|].
      intros Heq. apply Hfresh. rewrite <- Heq. by apply list_elem_of_fmap_2. }
    exists tr1. split; [|split].
    + cbn [Client.CancelAll_loop]. unfold mbind, M_bind.
      rewrite (Cancel_run _ _ _ _ _ Htr Hcancel). cbn. unfold OrderTracker.Get.
      rewrite Cancel_lookup, (Hin u) by apply list_elem_of_here. cbn.
      change (mkInfo (OrderID u) (set_status StatusCancelled (fields u)))
        with (cancelled u).
      rewrite Hrun, <- app_assoc. reflexivity.
    + intros u' Hu'. apply elem_of_cons in Hu' as [->|Hu']; [|by apply Hdone].
      rewrite Hframe by done.
      by rewrite Cancel_lookup, (Hin u) by apply list_elem_of_here.
    + intros k Hk. rewrite fmap_cons in Hk. apply not_elem_of_cons in Hk as [Hne Hk].
      rewrite Hframe by done. by apply Cancel_frame.
Qed.

(** The loop over [pre ++ bad :: post], distinct live orders of the
    tracker, when the venue accepts the cancel calls for [pre] and rejects
    the one for [bad]. *)
Lemma CancelAll_loop_rejected (pre post : list OrderInfo) (bad : OrderInfo)
    (w : World) (tr : gmap Z Fields) (v1 v2 : Venue) (e : error) :
  Tracker (client w) = Some tr ->
  (forall u, u ∈ pre ++ bad :: post -> u ∈ OrderTracker.Executed tr) ->
  NoDup (OrderID <$> pre ++ bad :: post) ->
  cancels_accepted (Key (client w)) (Secret (client w)) (OrderID <$> pre) (venue w)
    = Some v1 ->
  CancelOrder (Key (client w)) (Secret (client w)) (OrderID bad) v1 = (Some e, v2) ->
  exists tr2,
    Client.CancelAll_loop (pre ++ bad :: post) [] w
      = (Returned ((fun u => Some (cancelled u)) <$> pre, Some e),
         set_tracker tr2 (set_venue v2 w))
    /\ (forall u, u ∈ pre ->
          tr2 !! OrderID u = Some (set_status StatusCancelled (fields u)))
    /\ (forall u, u ∈ bad :: post ->
          tr2 !! OrderID u = Some (fields u) /\ live (fields u) = true)
    /\ (forall k, k ∉ OrderID <$> pre -> tr2 !! k = tr !! k).
Proof.
  intros Htr Hexec Hnd Hacc Hbad.
  rewrite fmap_app in Hnd. apply NoDup_app in Hnd as (Hnd_pre & Hdisj & _).
  destruct (CancelAll_loop_accepted pre [] w tr v1 Htr) as (tr1 & Hrun & Hdone & Hframe);
    [|done|done|].
  { intros u Hu. apply Executed_spec, Hexec, elem_of_app. by left. }
  exists tr1. split; [|split; [done|split; [|done]]].
  - rewrite app_nil_l in Hrun.
    apply (CancelAll_loop_stops pre post bad [] _ w _ _ None e Hrun).
    by rewrite (Cancel_run (OrderID bad) (set_tracker tr1 (set_venue v1 w)) tr1
                  (Some e) v2 eq_refl Hbad).
  - intros u Hu.
    assert (Hu' : u ∈ OrderTracker.Executed tr).
    { apply Hexec, elem_of_app. by right. }
    apply Executed_spec in Hu' as [Hf Hlive]. split; [|done].
    rewrite Hframe; [done|]. intros Hin. apply (Hdisj _ Hin).
    by apply list_elem_of_fmap_2.
Qed.

(** The targets of [CancelMarket] are tracked, distinct and on the symbol. *)
Lemma market_targets (sym' : string) (tr : gmap Z Fields) :
  (forall u, u ∈ filter (fun u => TradePair u = sym') (OrderTracker.Executed tr) ->
     tr !! OrderID u = Some (fields u))
  /\ NoDup (OrderID <$> filter (fun u => TradePair u = sym') (OrderTracker.Executed tr)).
Proof.
  split.
  - intros u Hu. apply list_elem_of_filter in Hu as [_ Hu].
    by apply Executed_spec in Hu as [Hu _].
  - eapply sublist_NoDup; [apply Executed_NoDup|]. apply fmap_sublist, sublist_filter.
Qed.

Lemma CancelAll_unfold (w : World) (tr : gmap Z Fields) :
  Tracker (client w) = Some tr ->
  Client.CancelAll w = Client.CancelAll_loop (OrderTracker.Executed tr) [] w.
Proof. intros Htr. unfold Client.CancelAll. run_monad. by rewrite Htr. Qed.

Lemma CancelMarket_unfold (sym sym' : string) (w : World) (tr : gmap Z Fields) :
  Tracker (client w) = Some tr ->
  normalize sym = (sym', None) ->
  Client.CancelMarket sym w =
    match Client.CancelAll_loop
            (filter (fun u => TradePair u = sym') (OrderTracker.Executed tr)) [] w with
    | (Returned (result, err), w') => (Returned (Some result, err), w')
    | (Panicked, w') => (Panicked, w')
    end.
Proof.
  intros Htr Hnorm. unfold Client.CancelMarket. rewrite Hnorm. run_monad.
  rewrite Htr. cbn. rewrite CancelMarket_loop_filter.
  by destruct (Client.CancelAll_loop _ _ _) as [[[result err]|] w'].
Qed.

End BatchCancel.

(** C5. [CancelAll] and [CancelMarket] walk the tracker's executed orders
    ([CancelMarket] those on the normalized symbol) and cancel them in
    turn.  When the venue accepts the cancel calls for the orders [pre] and
    rejects the call for the next order [bad], the call returns the venue's
    error with the refreshed records of [pre] and nothing else; the
    tracker then holds every order of [pre] cancelled, and [bad] and every
    order [post] after it as they were, live: no cancel call was made for
    [post].  When the venue accepts every call, all the orders walked are
    returned and held cancelled, and the error is nil. *)
Theorem batch_cancel_stops_at_first_failure `{E : Externals} (w : World)
    (tr : gmap Z Fields) :
  Tracker (client w) = Some tr ->
  (forall (pre post : list OrderInfo) (bad : OrderInfo) (v1 v2 : Venue) (e : error),
     OrderTracker.Executed tr = pre ++ bad :: post ->
     cancels_accepted (Key (client w)) (Secret (client w)) (OrderID <$> pre) (venue w)
       = Some v1 ->
     CancelOrder (Key (client w)) (Secret (client w)) (OrderID bad) v1 = (Some e, v2) ->
     exists w2 tr2,
       Client.CancelAll w
         = (Returned ((fun u => Some (cancelled u)) <$> pre, Some e), w2)
       /\ venue w2 = v2
       /\ Tracker (client w2) = Some tr2
       /\ (forall u, u ∈ pre ->
             tr2 !! OrderID u = Some (set_status StatusCancelled (fields u)))
       /\ (forall u, u ∈ bad :: post ->
             tr2 !! OrderID u = Some (fields u) /\ live (fields u) = true)
       /\ (forall k, k ∉ OrderID <$> pre -> tr2 !! k = tr !! k))
  /\ (forall (sym sym' : string) (pre post : list OrderInfo) (bad : OrderInfo)
             (v1 v2 : Venue) (e : error),
        normalize sym = (sym', None) ->
        filter (fun u => TradePair u = sym') (OrderTracker.Executed tr)
          = pre ++ bad :: post ->
        cancels_accepted (Key (client w)) (Secret (client w)) (OrderID <$> pre) (venue w)
          = Some v1 ->
        CancelOrder (Key (client w)) (Secret (client w)) (OrderID bad) v1 = (Some e, v2) ->
        exists w2 tr2,
          Client.CancelMarket sym w
            = (Returned (Some ((fun u => Some (cancelled u)) <$> pre), Some e), w2)
          /\ venue w2 = v2
          /\ Tracker (client w2) = Some tr2
          /\ (forall u, u ∈ pre ->
                tr2 !! OrderID u = Some (set_status StatusCancelled (fields u)))
          /\ (forall u, u ∈ bad :: post ->
                tr2 !! OrderID u = Some (fields u) /\ live (fields u) = true)
          /\ (forall k, k ∉ OrderID <$> pre -> tr2 !! k = tr !! k))
  /\ (forall v1 : Venue,
        cancels_accepted (Key (client w)) (Secret (client w))
          (OrderID <$> OrderTracker.Executed tr) (venue w) = Some v1 ->
        exists w2 tr2,
          Client.CancelAll w
            = (Returned ((fun u => Some (cancelled u)) <$> OrderTracker.Executed tr, None),
               w2)
          /\ venue w2 = v1
          /\ Tracker (client w2) = Some tr2
          /\ (forall u, u ∈ OrderTracker.Executed tr ->
                tr2 !! OrderID u = Some (set_status StatusCancelled (fields u))))
  /\ (forall (sym sym' : string) (v1 : Venue),
        normalize sym = (sym', None) ->
        cancels_accepted (Key (client w)) (Secret (client w))
          (OrderID <$> filter (fun u => TradePair u = sym') (OrderTracker.Executed tr))
          (venue w) = Some v1 ->
        exists w2 tr2,
          Client.CancelMarket sym w
            = (Returned (Some ((fun u => Some (cancelled u))
                                 <$> filter (fun u => TradePair u = sym')
                                       (OrderTracker.Executed tr)), None), w2)
          /\ venue w2 = v1
          /\ Tracker (client w2) = Some tr2
          /\ (forall u, u ∈ OrderTracker.Executed tr -> TradePair u = sym' ->
                tr2 !! OrderID u = Some (set_status StatusCancelled (fields u)))
          /\ (forall k f, tr !! k = Some f -> symbol f ≠ sym' -> tr2 !! k = Some f)).
Proof.
  intros Htr.
  pose proof (CancelAll_unfold w tr Htr) as Hall.
  pose proof (fun sym sym' => CancelMarket_unfold sym sym' w tr Htr) as Hsome.
  split; [|split; [|split]].
  - intros pre post bad v1 v2 e Hsplit Hacc Hbad.
    destruct (CancelAll_loop_rejected pre post bad w tr v1 v2 e Htr)
      as (tr2 & Hrun & Hpre & Hpost & Hframe); try done.
    { intros u Hu. by rewrite Hsplit. }
    { rewrite <- Hsplit. apply Executed_NoDup. }
    eexists _, tr2. rewrite Hall, Hsplit, Hrun.
    split; [reflexivity|]. split; [reflexivity|]. split; [reflexivity|]. done.
  - intros sym sym' pre post bad v1 v2 e Hnorm Hsplit Hacc Hbad.
    destruct (market_targets sym' tr) as [Hin Hnd]. rewrite Hsplit in Hin, Hnd.
    destruct (CancelAll_loop_rejected pre post bad w tr v1 v2 e Htr)
      as (tr2 & Hrun & Hpre & Hpost & Hframe); try done.
    { intros u Hu. apply Executed_spec. split; [by apply Hin|].
      rewrite <- Hsplit in Hu. apply list_elem_of_filter in Hu as [_ Hu].
      by apply Executed_spec in Hu as [_ Hu]. }
    eexists _, tr2. rewrite (Hsome sym sym' Hnorm), Hsplit, Hrun.
    split; [reflexivity|]. split; [reflexivity|]. split; [reflexivity|]. done.
  - intros v1 Hacc.
    destruct (CancelAll_loop_accepted (OrderTracker.Executed tr) [] w tr v1 Htr)
      as (tr1 & Hrun & Hdone & _); try done.
    { intros u Hu. by apply Executed_spec in Hu as [Hu _]. }
    { apply Executed_NoDup. }
    eexists _, tr1. rewrite Hall, Hrun.
    split; [reflexivity|]. split; [reflexivity|]. split; [reflexivity|]. done.
  - intros sym sym' v1 Hnorm Hacc.
    destruct (market_targets sym' tr) as [Hin Hnd].
    destruct (CancelAll_loop_accepted
                (filter (fun u => TradePair u = sym') (OrderTracker.Executed tr))
                [] w tr v1 Htr) as (tr1 & Hrun & Hdone & Hframe);
      [exact Hin|exact Hnd|exact Hacc|].
    eexists _, tr1. rewrite (Hsome sym sym' Hnorm), Hrun.
    split; [reflexivity|]. split; [reflexivity|]. split; [reflexivity|]. split.
    + intros u Hu Hsym. apply Hdone. by apply list_elem_of_filter.
    + intros k f Hf Hsym. rewrite Hframe; [done|].
      intros Hk. apply list_elem_of_fmap in Hk as (u & -> & Hu).
      apply list_elem_of_filter in Hu as [Hu_sym Hu].
      apply Executed_spec in Hu as [Hu _]. unfold TradePair in Hu_sym.
      rewrite Hf in Hu. injection Hu as ->. contradiction.
Qed.

Lemma batch_cancel_stops_at_first_failure_witness :
  exists w2 tr2,
    @Client.CancelMarket Mock.externals "eth_usdt"
        (Mock.world (Some four_orders) None second_cancel_fails)
      = (Returned (Some [Some (mkInfo 3 (set_status StatusCancelled (live_order "eth_usdt")))],
                   Some (RemoteError "cancel rejected")), w2)
    /\ @Tracker Mock.externals (client w2) = Some tr2
    /\ tr2 !! 3 = Some (set_status StatusCancelled (live_order "eth_usdt"))
    /\ tr2 !! 2 = Some (live_order "eth_usdt")
    /\ tr2 !! 1 = Some (live_order "eth_usdt")
    /\ tr2 !! 5 = Some (live_order "btc_usdt").
Proof.
  destruct (@batch_cancel_stops_at_first_failure Mock.externals
              (Mock.world (Some four_orders) None second_cancel_fails) four_orders eq_refl)
    as (_ & Hmarket & _).
  destruct (Hmarket "eth_usdt" "eth_usdt"
              [mkInfo 3 (live_order "eth_usdt")] [mkInfo 1 (live_order "eth_usdt")]
              (mkInfo 2 (live_order "eth_usdt")) _ _ _
              eq_refl eq_refl eq_refl eq_refl)
    as (w2 & tr2 & Hrun & _ & Htr2 & Hpre & Hpost & Hframe).
  exists w2, tr2. split; [exact Hrun|]. split; [exact Htr2|].
  split; [apply (Hpre (mkInfo 3 (live_order "eth_usdt"))), list_elem_of_here|].
  split; [apply (Hpost (mkInfo 2 (live_order "eth_usdt"))), list_elem_of_here|].
  split.
  - apply (Hpost (mkInfo 1 (live_order "eth_usdt"))), list_elem_of_further,
      list_elem_of_here.
  - rewrite (Hframe 5); [reflexivity|].
    intros Hin. apply list_elem_of_singleton in Hin. discriminate Hin.
Defined.

(** ** Balance query *)


(** The venue's map holds the key BTC, which matches the requested currency
    BTC whatever the case, and [GetBalance] still fails: it looks up btc. *)
Lemma GetBalance_misses_upper_case_key :
  (exists (k v : string),
     fst (Mock.balance upper_case_balance) !! k = Some v
     /\ @ToLower Mock.externals k = @ToLower Mock.externals "BTC")
  /\ fst (@Client.GetBalance Mock.externals "BTC" (Mock.world None None upper_case_balance))
     = Returned ("", Some (Errorf "currency %s does not found" "BTC")).
Proof. split; [by exists "BTC", "1.5" | reflexivity]. Qed.

(** C9, as the code has it.  [GetBalance] calls the venue once, on its
    current state, and changes nothing but the venue's state.  When the
    call fails its error is returned; otherwise the result is the entry
    stored under the lower-cased currency, and when the map has no such key
    the error built from the requested currency.  Two requests that differ
    only in the case of their letters find the same entry. *)
Theorem GetBalance_lookup `{E : Externals} (currency : string) (w : World)
    (info : gmap string string) (err : option error) (v' : Venue) :
  GetBalance (Key (client w)) (Secret (client w)) (venue w) = ((info, err), v') ->
  (exists r,
     Client.GetBalance currency w = (Returned r, set_venue v' w)
     /\ match err with
        | Some e => r = ("", Some e)
        | None =>
            match info !! ToLower currency with
            | Some v => r = (v, None)
            | None => r = ("", Some (Errorf "currency %s does not found" currency))
            end
        end)
  /\ forall (currency' v : string),
       ToLower currency' = ToLower currency ->
       Client.GetBalance currency w = (Returned (v, None), set_venue v' w) ->
       Client.GetBalance currency' w = (Returned (v, None), set_venue v' w).
Proof.
  intros Hget.
  assert (Hrun : forall c,
    Client.GetBalance c w =
      (Returned match err with
                | Some e => ("", Some e)
                | None => match info !! ToLower c with
                          | Some v => (v, None)
                          | None => ("", Some (Errorf "currency %s does not found" c))
                          end
                end, set_venue v' w)).
  { intros c. unfold Client.GetBalance. run_monad. rewrite Hget. cbn.
    destruct err as [e|]; [reflexivity|]. by destruct (info !! ToLower c). }
  split.
  - eexists. split; [apply Hrun|].
    destruct err as [e|]; [reflexivity|]. by destruct (info !! ToLower currency).
  - intros currency' v Hlow. rewrite !Hrun, Hlow.
    destruct err as [e|]; [done|].
    destruct (info !! ToLower currency); [done|]. intros H; discriminate H.
Qed.

Lemma GetBalance_lookup_witness :
  @Client.GetBalance Mock.externals "BTC" (Mock.world None None lower_case_balance)
  = (Returned ("0.5", None), Mock.world None None lower_case_balance)
  /\ @Client.GetBalance Mock.externals (String.append capital_e_acute "TH")
       (Mock.world None None accented_balance)
     = (Returned ("2.0", None), Mock.world None None accented_balance).
Proof.
  destruct (@GetBalance_lookup Mock.externals "btc"
              (Mock.world None None lower_case_balance)
              {[ "btc" := "0.5" ]} None lower_case_balance eq_refl) as [_ Hcase].
  split; [|reflexivity].
  apply (Hcase "BTC" "0.5" eq_refl). reflexivity.
Defined.

(** ** A client without a tracker *)

(** C10.  On a client whose [Tracker] is nil, the operations that reach a
    call on the tracker panic: [OrderStatus], [OrderDetails], [Executed],
    [Completed] and [CancelAll] at once, [CancelMarket] once the symbol is
    accepted, [Cancel] once the venue has cancelled the order, [Buy] and
    [Sell] once the venue has placed the order.  A call that fails earlier
    returns its error.  [checkUpdate] tests both trackers: without a tracker
    it starts no order-status task, without an order-book tracker no
    order-book sweep, and the tick returns. *)
Theorem nil_tracker_panics `{E : Externals} (w : World) :
  Tracker (client w) = None ->
  (forall id, Client.OrderStatus id w = (Panicked, w))
  /\ (forall id, Client.OrderDetails id w = (Panicked, w))
  /\ Client.Executed w = (Panicked, w)
  /\ Client.Completed w = (Panicked, w)
  /\ Client.CancelAll w = (Panicked, w)
  /\ (forall sym sym', normalize sym = (sym', None) ->
        Client.CancelMarket sym w = (Panicked, w))
  /\ (forall id err v',
        CancelOrder (Key (client w)) (Secret (client w)) id (venue w) = (err, v') ->
        Client.Cancel id w =
          match err with
          | Some e => (Returned (None, Some e), set_venue v' w)
          | None => (Panicked, set_venue v' w)
          end)
  /\ (forall (buy : bool) sym sym' pr amt id err v',
        normalize sym = (sym', None) ->
        CreateOrder (Key (client w)) (Secret (client w)) sym'
                    (if buy then "buy" else "sell") PriceTypeMarket amt 1 pr (venue w)
          = ((id, err), v') ->
        (if buy then Client.Buy sym pr amt w else Client.Sell sym pr amt w) =
          match err with
          | Some e => (Returned (id, Some e), set_venue v' w)
          | None => (Panicked, set_venue v' w)
          end)
  /\ (forall m, world m = w -> upd m = USelect ->
        step EvTick m = Returned (checkUpdate m)
        /\ world (checkUpdate m) = w
        /\ upd (checkUpdate m) = USelect
        /\ (OrderBookTracker (client w) = None -> sweeps (checkUpdate m) = sweeps m)).
Proof.
  intros Hnil.
  split; [intros id; unfold Client.OrderStatus; run_monad; by rewrite Hnil|].
  split; [intros id; unfold Client.OrderDetails; run_monad; by rewrite Hnil|].
  split; [unfold Client.Executed; run_monad; by rewrite Hnil|].
  split; [unfold Client.Completed; run_monad; by rewrite Hnil|].
  split; [unfold Client.CancelAll; run_monad; by rewrite Hnil|].
  split; [intros sym sym' Hnorm; unfold Client.CancelMarket; rewrite Hnorm; run_monad;
          by rewrite Hnil|].
  split.
  { intros id err v' Hcancel. unfold Client.Cancel. run_monad. rewrite Hcancel. cbn.
    destruct err as [e|]; cbn; [reflexivity|]. by rewrite Hnil. }
  split.
  { intros buy sym sym' pr amt id err v' Hnorm Hcreate.
    destruct buy; unfold Client.Buy, Client.Sell; rewrite Hnorm; run_monad;
      rewrite Hcreate; cbn; destruct err as [e|]; cbn; try reflexivity; by rewrite Hnil. }
  intros m <- Hupd. unfold step, checkUpdate. rewrite Hupd, Hnil. cbn.
  repeat split. by intros ->.
Qed.

Lemma nil_tracker_panics_witness :
  @Client.Buy Mock.externals "eth_usdt" 100 1 (Mock.world None None Mock.quiet)
  = (Panicked,
     Mock.world None None
       (Mock.mkVenue 43 None 0 None (∅, None) (fun _ => (([], []), None))
                     (fun _ _ => ([], None)))).
Proof.
  destruct (@nil_tracker_panics Mock.externals (Mock.world None None Mock.quiet) eq_refl)
    as (_ & _ & _ & _ & _ & _ & _ & Hplace & _).
  exact (Hplace true "eth_usdt" "eth_usdt" 100 1 42 None _ eq_refl eq_refl).
Defined.

(** ** Pools of concurrent tasks *)

Section Pools.
Context `{E : Externals} {T : Type}.
Variable task_step : T -> M T.
Variable finished : T -> bool.
(** What every step can rely on and keeps, such as a tracker being set. *)
Variable ready : World -> Prop.

Hypothesis step_returns :
  forall t w, ready w -> exists t' w', task_step t w = (Returned t', w') /\ ready w'.

(** A task on its own reaches its end in finitely many steps. *)
Hypothesis task_finishes :
  forall t w, ready w ->
    exists (n : nat) t' w',
      run_pool task_step (replicate n 0%nat) [t] w = (Returned [t'], w')
      /\ finished t' = true /\ ready w'.

Lemma run_pool_app (s1 s2 : list nat) (pool : list T) (w : World) :
  run_pool task_step (s1 ++ s2) pool w =
    match run_pool task_step s1 pool w with
    | (Returned pool', w') => run_pool task_step s2 pool' w'
    | (Panicked, w') => (Panicked, w')
    end.
Proof.
  revert pool w. induction s1 as [|i s1 IH]; intros pool w; [reflexivity|].
  cbn. unfold mbind, M_bind.
  destruct (pool_step task_step i pool w) as [[pool'|] w']; [apply IH|reflexivity].
Qed.

Lemma pool_step_returns (i : nat) (pool : list T) (w : World) :
  ready w ->
  exists pool' w',
    pool_step task_step i pool w = (Returned pool', w')
    /\ ready w' /\ length pool' = length pool.
Proof.
  intros Hw. unfold pool_step. destruct (pool !! i) as [t|] eqn:Ht.
  - destruct (step_returns t w Hw) as (t' & w' & Hstep & Hw').
    exists (<[i := t']> pool), w'. unfold mbind, M_bind. rewrite Hstep.
    split; [reflexivity|]. split; [done|]. apply length_insert.
  - by exists pool, w.
Qed.

(** Under any schedule the pool keeps running: no step panics. *)
Lemma run_pool_returns (sched : list nat) (pool : list T) (w : World) :
  ready w ->
  exists pool' w',
    run_pool task_step sched pool w = (Returned pool', w')
    /\ ready w' /\ length pool' = length pool.
Proof.
  revert pool w. induction sched as [|i sched IH]; intros pool w Hw.
  - by exists pool, w.
  - destruct (pool_step_returns i pool w Hw) as (pool1 & w1 & Hstep & Hw1 & Hlen1).
    destruct (IH pool1 w1 Hw1) as (pool2 & w2 & Hrun & Hw2 & Hlen2).
    exists pool2, w2. cbn. unfold mbind, M_bind. rewrite Hstep.
    split; [done|]. split; [done|]. congruence.
Qed.

Lemma insert_at_length (l1 l2 : list T) (t t' : T) :
  <[length l1 := t']> (l1 ++ t :: l2) = l1 ++ t' :: l2.
Proof. rewrite insert_app_r_alt by lia. by rewrite Nat.sub_diag. Qed.

(** Steps of the task at position [length l1] happen in place. *)
Lemma run_pool_in_place (n : nat) (l1 l2 : list T) (t t' : T) (w w' : World) :
  run_pool task_step (replicate n 0%nat) [t] w = (Returned [t'], w') ->
  run_pool task_step (replicate n (length l1)) (l1 ++ t :: l2) w
  = (Returned (l1 ++ t' :: l2), w').
Proof.
  revert t w. induction n as [|n IH]; intros t w Hrun.
  - cbn in Hrun |- *. by injection Hrun as -> ->.
  - cbn in Hrun |- *. unfold mbind, M_bind, pool_step in Hrun |- *.
    rewrite list_lookup_middle by done. cbn in Hrun.
    unfold mbind, M_bind in Hrun |- *.
    destruct (task_step t w) as [[t1|] w1]; [|discriminate Hrun].
    cbn in Hrun |- *. rewrite insert_at_length. by apply IH.
Qed.

(** From any state of the pool the tasks can all be brought to their end,
    so the wait for them returns. *)
Lemma pool_completes (l1 l2 : list T) (w : World) :
  ready w ->
  forallb finished l1 = true ->
  exists sched pool' w',
    run_pool task_step sched (l1 ++ l2) w = (Returned pool', w')
    /\ forallb finished pool' = true /\ ready w'.
Proof.
  revert l1 w. induction l2 as [|t l2 IH]; intros l1 w Hw Hl1.
  - exists [], l1, w. by rewrite app_nil_r.
  - destruct (task_finishes t w Hw) as (n & t' & w1 & Hrun & Ht' & Hw1).
    destruct (IH (l1 ++ [t']) w1 Hw1) as (sched & pool' & w2 & Hrest & Hall & Hw2).
    { rewrite forallb_app, Hl1. cbn. by rewrite Ht'. }
    exists (replicate n (length l1) ++ sched), pool', w2.
    rewrite run_pool_app, (run_pool_in_place _ _ _ _ _ _ _ Hrun).
    rewrite <- app_assoc in Hrest. done.
Qed.

End Pools.

(** ** Failure of one (symbol, status) pair *)

Section OrderSweep.
Context `{E : Externals}.


Lemma orderTask_step_returns (t : OrderTask) (w : World) :
  has_tracker w ->
  exists t' w', orderTask_step t w = (Returned t', w') /\ has_tracker w'.
Proof.
  intros [tr Htr]. destruct t as [sym st|sym st [|order rest]|].
  - cbn. run_monad.
    destruct (GetOrderByStatus _ _ _ _ _ _) as [[orders [e|]] v']; cbn;
      eexists _, _; (split; [reflexivity|]); by exists tr.
  - exists ODone, w. split; [reflexivity|]. by exists tr.
  - destruct (reconcile_returns sym st order w tr Htr) as (w' & tr' & Hrun & Htr' & _).
    exists (OLoop sym st rest), w'. split; [by apply orderTask_loop_step|]. by exists tr'.
  - exists ODone, w. split; [reflexivity|]. by exists tr.
Qed.

Lemma order_loop_finishes (sym st : string) (orders : list Order.t) (w : World) :
  has_tracker w ->
  exists (n : nat) w',
    run_pool orderTask_step (replicate n 0%nat) [OLoop sym st orders] w
      = (Returned [ODone], w')
    /\ has_tracker w'.
Proof.
  revert w. induction orders as [|order rest IH]; intros w Hw.
  - by exists 1%nat, w.
  - destruct Hw as [tr Htr].
    destruct (reconcile_returns sym st order w tr Htr) as (w1 & tr1 & Hrun & Htr1 & _).
    destruct (IH w1) as (n & w' & Hrest & Hw'); [by exists tr1|].
    exists (S n), w'. split; [|done].
    cbn [replicate run_pool]. unfold mbind at 1, M_bind at 1. unfold pool_step.
    cbn [lookup list_lookup]. unfold mbind at 1, M_bind at 1.
    rewrite (orderTask_loop_step _ _ _ _ _ _ Hrun). cbn. exact Hrest.
Qed.

Lemma orderTask_finishes (t : OrderTask) (w : World) :
  has_tracker w ->
  exists (n : nat) t' w',
    run_pool orderTask_step (replicate n 0%nat) [t] w = (Returned [t'], w')
    /\ order_done t' = true /\ has_tracker w'.
Proof.
  intros Hw. destruct t as [sym st|sym st orders|].
  - destruct (GetOrderByStatus (Key (client w)) (Secret (client w)) sym st (-1) (venue w))
      as [[orders [e|]] v'] eqn:Hfetch.
    + exists 1%nat. eexists _, _. cbn. run_monad. rewrite Hfetch. cbn.
      split; [reflexivity|]. split; [reflexivity|]. exact Hw.
    + destruct (order_loop_finishes sym st orders (set_venue v' w)) as (n & w' & Hrun & Hw');
        [exact Hw|].
      exists (S n), ODone, w'. split; [|done].
      cbn. run_monad. rewrite Hfetch. cbn. exact Hrun.
  - destruct (order_loop_finishes sym st orders w Hw) as (n & w' & Hrun & Hw').
    by exists n, ODone, w'.
  - by exists 0%nat, ODone, w.
Qed.

(** Steps of the order-status tasks, seen from the goroutine of [Update]. *)
Lemma run_order_events (sched : list nat) (m : Machine) (pool pool' : list OrderTask)
    (w' : World) :
  upd m = UWait pool ->
  run_pool orderTask_step sched pool (world m) = (Returned pool', w') ->
  run (EvOrder <$> sched) m = Returned (mkMachine w' (sem m) (UWait pool') (sweeps m)).
Proof.
  revert m pool. induction sched as [|j sched IH]; intros m pool Hupd Hrun.
  - cbn in Hrun |- *. injection Hrun as <- <-. destruct m; cbn in *. by subst.
  - cbn in Hrun |- *. unfold mbind, M_bind in Hrun. rewrite Hupd.
    destruct (pool_step orderTask_step j pool (world m)) as [[pool1|] w1];
      [|discriminate Hrun].
    by rewrite (IH (mkMachine w1 (sem m) (UWait pool1) (sweeps m)) pool1 eq_refl Hrun).
Qed.

Lemma run_app (evs1 evs2 : list Event) (m : Machine) :
  run (evs1 ++ evs2) m =
    match run evs1 m with
    | Returned m' => run evs2 m'
    | Panicked => Panicked
    end.
Proof.
  revert m. induction evs1 as [|ev evs1 IH]; intros m; [reflexivity|].
  cbn. destruct (step ev m) as [m1|]; [apply IH|reflexivity].
Qed.

End OrderSweep.

(** C8.  An order-status task whose fetch fails logs the error and ends:
    the step leaves both trackers and every other task of the pool as they
    were.  Whatever has been scheduled so far, the pool is still running (no
    step panics), and the tasks that remain can all be brought to their end,
    after which the wait in [checkUpdate] returns and [Update] is back at
    its [select]: nothing of the failure reaches it. *)
Theorem order_fetch_failure_isolated `{E : Externals} (pool : list OrderTask)
    (w : World) :
  is_Some (Tracker (client w)) ->
  (forall (i : nat) (sym st : string) (orders : list Order.t) (e : error) (v' : Venue),
     pool !! i = Some (OFetch sym st) ->
     GetOrderByStatus (Key (client w)) (Secret (client w)) sym st (-1) (venue w)
       = ((orders, Some e), v') ->
     pool_step orderTask_step i pool w
       = (Returned (<[i := ODone]> pool),
          mkWorld (client w) v' (clock w)
                  (warnings w ++ [("c2cx: update order info failed %s", e)]))
     /\ forall j, j ≠ i -> <[i := ODone]> pool !! j = pool !! j)
  /\ forall sched : list nat,
       exists pool' w',
         run_pool orderTask_step sched pool w = (Returned pool', w')
         /\ is_Some (Tracker (client w'))
         /\ length pool' = length pool
         /\ exists sched' pool'' w'',
              run_pool orderTask_step sched' pool' w' = (Returned pool'', w'')
              /\ forallb order_done pool'' = true
              /\ forall m, world m = w -> upd m = UWait pool ->
                   exists m',
                     run ((EvOrder <$> sched ++ sched') ++ [EvJoin]) m = Returned m'
                     /\ upd m' = USelect /\ world m' = w''.
Proof.
  intros Hw. split.
  - intros i sym st orders e v' Hi Hfetch. split.
    + unfold pool_step. rewrite Hi. cbn. run_monad. rewrite Hfetch. reflexivity.
    + intros j Hj. by apply list_lookup_insert_ne.
  - intros sched.
    destruct (run_pool_returns orderTask_step has_tracker orderTask_step_returns
                sched pool w Hw) as (pool' & w' & Hrun & Hw' & Hlen).
    exists pool', w'. split; [done|]. split; [done|]. split; [done|].
    destruct (pool_completes orderTask_step order_done has_tracker orderTask_finishes
                [] pool' w' Hw' eq_refl) as (sched' & pool'' & w'' & Hrest & Hall & _).
    exists sched', pool'', w''. split; [done|]. split; [done|].
    intros m <- Hupd.
    assert (Hboth : run_pool orderTask_step (sched ++ sched') pool (world m)
                    = (Returned pool'', w'')).
    { by rewrite run_pool_app, Hrun. }
    exists (mkMachine w'' (sem m) USelect (sweeps m)).
    split; [|split; reflexivity].
    rewrite run_app, (run_order_events _ m _ _ _ Hupd Hboth). cbn. by rewrite Hall.
Qed.

(** ** The order-book sweep *)

Section BookSweepLemmas.
Context `{E : Externals}.


Lemma book_tasks_shaped : shaped book_tasks.
Proof.
  intros i t s Hi Hs. unfold book_tasks in Hi. rewrite list_lookup_fmap in Hi.
  destruct (allowed !! i) as [s'|]; [|discriminate Hi].
  cbn in Hi. injection Hi as <-. cbn in Hs. by injection Hs as ->.
Qed.

(** One step of the pool: what it writes and what it leaves alone. *)
Lemma book_pool_step (j : nat) (pool : list BookTask) (w : World)
    (bk : gmap string (OrderBookTracker.Quotes * OrderBookTracker.Quotes)) :
  OrderBookTracker (client w) = Some bk ->
  exists pool' w' bk',
    pool_step bookTask_step j pool w = (Returned pool', w')
    /\ OrderBookTracker (client w') = Some bk'
    /\ Tracker (client w') = Tracker (client w)
    /\ warnings w' = warnings w
    /\ (forall i, i ≠ j -> pool' !! i = pool !! i)
    /\ match pool !! j with
       | Some (BFetch s) =>
           bk' = bk
           /\ pool' !! j =
              Some (match snd (fst (GetOrderBook s (venue w))) with
                    | Some _ => BDone
                    | None => BUpdate s (fst (fst (fst (GetOrderBook s (venue w)))))
                                        (snd (fst (fst (GetOrderBook s (venue w)))))
                    end)
           /\ venue w' = snd (GetOrderBook s (venue w))
       | Some (BUpdate s bids asks) =>
           bk' = <[s := (bids, asks)]> bk /\ pool' !! j = Some BDone
       | Some BDone => bk' = bk /\ pool' !! j = Some BDone
       | None => bk' = bk /\ pool' = pool
       end.
Proof.
  intros Hbk. unfold pool_step. destruct (pool !! j) as [t|] eqn:Hj.
  - assert (Hlt : (j < length pool)%nat) by (by eapply lookup_lt_Some).
    destruct t as [s|s bids asks|]; cbn; run_monad.
    + destruct (GetOrderBook s (venue w)) as [[orders [e|]] v']; cbn;
        eexists _, _, bk; (split; [reflexivity|]); cbn;
        (split; [done|]); (split; [done|]); (split; [done|]);
        (split; [intros i Hi; by apply list_lookup_insert_ne|]);
        (split; [done|]); (split; [by apply list_lookup_insert_eq|done]).
    + rewrite Hbk. cbn. eexists _, _, _. split; [reflexivity|]. cbn.
      split; [done|]. split; [done|]. split; [done|].
      split; [intros i Hi; by apply list_lookup_insert_ne|].
      split; [done|]. by apply list_lookup_insert_eq.
    + exists (<[j := BDone]> pool), w, bk. split; [reflexivity|].
      split; [done|]. split; [done|]. split; [done|].
      split; [intros i Hi; by apply list_lookup_insert_ne|].
      split; [done|]. by apply list_lookup_insert_eq.
  - exists pool, w, bk. by repeat split.
Qed.

Lemma shaped_step (j : nat) (pool pool' : list BookTask) (w w' : World) :
  has_book w -> shaped pool ->
  pool_step bookTask_step j pool w = (Returned pool', w') ->
  shaped pool'.
Proof.
  intros [bk Hbk] Hshape Hstep.
  destruct (book_pool_step j pool w bk Hbk)
    as (pool1 & w1 & bk1 & Hstep1 & _ & _ & _ & Hothers & Hown).
  rewrite Hstep in Hstep1. injection Hstep1 as <- <-.
  intros i t s Hi Hs. destruct (decide (i = j)) as [->|Hne].
  - destruct (pool !! j) as [[s0|s0 bids asks|]|] eqn:Hj.
    + destruct Hown as (_ & Hj' & _). rewrite Hj' in Hi. injection Hi as <-.
      destruct (snd (fst (GetOrderBook s0 (venue w)))); [discriminate Hs|].
      cbn in Hs. injection Hs as <-. by apply (Hshape j (BFetch s0)).
    + destruct Hown as (_ & Hj'). rewrite Hj' in Hi. injection Hi as <-. discriminate Hs.
    + destruct Hown as (_ & Hj'). rewrite Hj' in Hi. injection Hi as <-. discriminate Hs.
    + destruct Hown as (_ & ->). by rewrite Hj in Hi.
  - rewrite Hothers in Hi by done. by eapply Hshape.
Qed.

(** A step of task [j] leaves the entry of every symbol but its own. *)
Lemma book_step_frame (j : nat) (pool pool' : list BookTask) (w w' : World)
    (bk bk' : gmap string (OrderBookTracker.Quotes * OrderBookTracker.Quotes))
    (sym : string) :
  shaped pool ->
  OrderBookTracker (client w) = Some bk ->
  pool_step bookTask_step j pool w = (Returned pool', w') ->
  OrderBookTracker (client w') = Some bk' ->
  allowed !! j ≠ Some sym ->
  bk' !! sym = bk !! sym.
Proof.
  intros Hshape Hbk Hstep Hbk' Hj.
  destruct (book_pool_step j pool w bk Hbk)
    as (pool1 & w1 & bk1 & Hstep1 & Hbk1 & _ & _ & _ & Hown).
  rewrite Hstep in Hstep1. injection Hstep1 as <- <-.
  rewrite Hbk' in Hbk1. injection Hbk1 as <-.
  destruct (pool !! j) as [[s0|s0 bids asks|]|] eqn:Hpj.
  - by destruct Hown as (-> & _).
  - destruct Hown as (-> & _). apply lookup_insert_ne. intros ->.
    apply Hj. by apply (Hshape j (BUpdate sym bids asks)).
  - by destruct Hown as (-> & _).
  - by destruct Hown as (-> & _).
Qed.

Lemma bookTask_step_returns (t : BookTask) (w : World) :
  has_book w ->
  exists t' w', bookTask_step t w = (Returned t', w') /\ has_book w'.
Proof.
  intros [bk Hbk]. destruct t as [s|s bids asks|]; cbn; run_monad.
  - destruct (GetOrderBook s (venue w)) as [[orders [e|]] v']; cbn;
      eexists _, _; (split; [reflexivity|]); by exists bk.
  - rewrite Hbk. cbn. eexists _, _. split; [reflexivity|]. by eexists.
  - exists BDone, w. split; [reflexivity|]. by exists bk.
Qed.

Lemma bookTask_finishes (t : BookTask) (w : World) :
  has_book w ->
  exists (n : nat) t' w',
    run_pool bookTask_step (replicate n 0%nat) [t] w = (Returned [t'], w')
    /\ book_done t' = true /\ has_book w'.
Proof.
  intros [bk Hbk]. destruct t as [s|s bids asks|].
  - destruct (GetOrderBook s (venue w)) as [[orders [e|]] v'] eqn:Hfetch.
    + exists 1%nat, BDone. eexists. cbn. run_monad. rewrite Hfetch. cbn.
      split; [reflexivity|]. split; [reflexivity|]. by exists bk.
    + exists 2%nat, BDone. eexists. cbn. run_monad. rewrite Hfetch. cbn.
      run_monad. rewrite Hbk. cbn. split; [reflexivity|]. split; [reflexivity|]. by eexists.
  - exists 1%nat, BDone. eexists. cbn. run_monad. rewrite Hbk. cbn.
    split; [reflexivity|]. split; [reflexivity|]. by eexists.
  - exists 0%nat, BDone, w. split; [reflexivity|]. split; [reflexivity|]. by exists bk.
Qed.

End BookSweepLemmas.

Section BookSweepRuns.
Context `{E : Externals}.


Lemma book_step_effect (j : nat) (pool pool' : list BookTask) (w w' : World) :
  has_book w -> shaped pool ->
  pool_step bookTask_step j pool w = (Returned pool', w') ->
  has_book w' /\ shaped pool'
  /\ Tracker (client w') = Tracker (client w)
  /\ warnings w' = warnings w
  /\ (forall i, i ≠ j -> pool' !! i = pool !! i)
  /\ (forall sym, allowed !! j ≠ Some sym -> snapshot sym w' = snapshot sym w)
  /\ match pool !! j with
     | Some (BFetch s) =>
         (forall sym, snapshot sym w' = snapshot sym w)
         /\ pool' !! j = Some (after_fetch s w)
     | Some (BUpdate s bids asks) =>
         snapshot s w' = Some (bids, asks) /\ pool' !! j = Some BDone
     | Some BDone => (forall sym, snapshot sym w' = snapshot sym w) /\ pool' !! j = Some BDone
     | None => (forall sym, snapshot sym w' = snapshot sym w) /\ pool' = pool
     end.
Proof.
  intros Hw Hshape Hstep. pose proof Hw as [bk Hbk].
  destruct (book_pool_step j pool w bk Hbk)
    as (pool1 & w1 & bk1 & Hstep1 & Hbk1 & Htr & Hwarn & Hothers & Hown).
  rewrite Hstep in Hstep1. injection Hstep1 as <- <-.
  split; [by exists bk1|]. split; [by eapply shaped_step|].
  split; [done|]. split; [done|]. split; [done|].
  split.
  { intros sym Hsym. unfold snapshot. rewrite Hbk, Hbk1. cbn.
    by eapply book_step_frame. }
  unfold snapshot. rewrite Hbk, Hbk1. cbn.
  destruct (pool !! j) as [[s0|s0 bids asks|]|].
  - destruct Hown as (-> & Hj & _). done.
  - destruct Hown as (-> & Hj). split; [apply lookup_insert_eq|done].
  - by destruct Hown as (-> & Hj).
  - by destruct Hown as (-> & ->).
Qed.

(** Induction along a schedule. *)
Lemma book_run_ind (P : list BookTask -> World -> Prop) :
  (forall j pool w pool' w',
     shaped pool -> has_book w -> P pool w ->
     pool_step bookTask_step j pool w = (Returned pool', w') -> P pool' w') ->
  forall sched pool w pool' w',
    shaped pool -> has_book w -> P pool w ->
    run_pool bookTask_step sched pool w = (Returned pool', w') ->
    P pool' w' /\ shaped pool' /\ has_book w'.
Proof.
  intros Hstep sched. induction sched as [|j sched IH];
    intros pool w pool' w' Hshape Hw HP Hrun.
  - cbn in Hrun. by injection Hrun as <- <-.
  - cbn in Hrun. unfold mbind, M_bind in Hrun.
    destruct (pool_step bookTask_step j pool w) as [[pool1|] w1] eqn:Hj;
      [|discriminate Hrun].
    destruct (book_step_effect _ _ _ _ _ Hw Hshape Hj) as (Hw1 & Hshape1 & _).
    apply (IH pool1 w1 pool' w' Hshape1 Hw1); [|exact Hrun].
    by apply (Hstep j pool w pool1 w1).
Qed.

Section OneSymbol.
Variables (i : nat) (sym : string).
Hypothesis allowed_distinct : NoDup allowed.
Hypothesis at_i : allowed !! i = Some sym.

Lemma other_task (j : nat) : j ≠ i -> allowed !! j ≠ Some sym.
Proof.
  intros Hne Hj. apply Hne.
  by apply (NoDup_lookup allowed j i sym allowed_distinct).
Qed.

(** Once the task of [sym] has ended, its snapshot stays. *)
Lemma finished_task_stays (x : option (OrderBookTracker.Quotes * OrderBookTracker.Quotes))
    (sched : list nat) (pool pool' : list BookTask) (w w' : World) :
  shaped pool -> has_book w ->
  pool !! i = Some BDone -> snapshot sym w = x ->
  run_pool bookTask_step sched pool w = (Returned pool', w') ->
  pool' !! i = Some BDone /\ snapshot sym w' = x.
Proof.
  intros Hshape Hw Hi Hx Hrun.
  apply (book_run_ind (fun p v => p !! i = Some BDone /\ snapshot sym v = x))
    with (sched := sched) (pool := pool) (w := w); try done.
  clear Hshape Hw Hi Hx Hrun. clear pool pool' w w'.
  intros j pool w pool' w' Hshape Hw [Hi Hx] Hstep.
  destruct (book_step_effect _ _ _ _ _ Hw Hshape Hstep)
    as (_ & _ & _ & _ & Hothers & Hframe & Hown).
  destruct (decide (j = i)) as [->|Hne].
  - rewrite Hi in Hown. destruct Hown as [Hsame Hi']. by rewrite Hsame.
  - rewrite Hothers, Hframe by (done || by apply other_task). done.
Qed.

(** A task that holds a fetched snapshot either still holds it, the entry
    being untouched, or has written exactly that snapshot. *)
Lemma updating_task_writes (bids asks : OrderBookTracker.Quotes)
    (x : option (OrderBookTracker.Quotes * OrderBookTracker.Quotes))
    (sched : list nat) (pool pool' : list BookTask) (w w' : World) :
  shaped pool -> has_book w ->
  pool !! i = Some (BUpdate sym bids asks) -> snapshot sym w = x ->
  run_pool bookTask_step sched pool w = (Returned pool', w') ->
  (pool' !! i = Some (BUpdate sym bids asks) /\ snapshot sym w' = x)
  \/ (pool' !! i = Some BDone /\ snapshot sym w' = Some (bids, asks)).
Proof.
  intros Hshape Hw Hi Hx Hrun.
  apply (book_run_ind (fun p v =>
           (p !! i = Some (BUpdate sym bids asks) /\ snapshot sym v = x)
           \/ (p !! i = Some BDone /\ snapshot sym v = Some (bids, asks))))
    with (sched := sched) (pool := pool) (w := w); try done; [|by left].
  clear Hshape Hw Hi Hx Hrun. clear pool pool' w w'.
  intros j pool w pool' w' Hshape Hw HP Hstep.
  destruct (book_step_effect _ _ _ _ _ Hw Hshape Hstep)
    as (_ & _ & _ & _ & Hothers & Hframe & Hown).
  destruct (decide (j = i)) as [->|Hne].
  - destruct HP as [[Hi Hx]|[Hi Hx]]; rewrite Hi in Hown.
    + right. destruct Hown as [Hnew Hi']. done.
    + right. destruct Hown as [Hsame Hi']. by rewrite Hsame.
  - rewrite Hothers, Hframe by (done || by apply other_task). done.
Qed.

(** Until the task of [sym] has fetched, its snapshot is untouched. *)
Lemma fetching_task_waits
    (x : option (OrderBookTracker.Quotes * OrderBookTracker.Quotes))
    (sched : list nat) (pool pool' : list BookTask) (w w' : World) :
  shaped pool -> has_book w ->
  snapshot sym w = x ->
  run_pool bookTask_step sched pool w = (Returned pool', w') ->
  pool' !! i = Some (BFetch sym) ->
  snapshot sym w' = x.
Proof.
  intros Hshape Hw Hx Hrun.
  apply (book_run_ind (fun p v => p !! i = Some (BFetch sym) -> snapshot sym v = x))
    with (sched := sched) (pool := pool) (w := w); try done.
  clear Hshape Hw Hx Hrun. clear pool pool' w w'.
  intros j pool w pool' w' Hshape Hw HP Hstep Hi'.
  destruct (book_step_effect _ _ _ _ _ Hw Hshape Hstep)
    as (_ & _ & _ & _ & Hothers & Hframe & Hown).
  destruct (decide (j = i)) as [->|Hne].
  - destruct (pool !! i) as [[s0|s0 bids asks|]|] eqn:Hi.
    + destruct Hown as [_ Hi'']. rewrite Hi' in Hi''. injection Hi'' as Hf.
      unfold after_fetch in Hf. by destruct (snd (fst (GetOrderBook s0 (venue w)))).
    + destruct Hown as [_ Hi'']. rewrite Hi' in Hi''. discriminate Hi''.
    + destruct Hown as [_ Hi'']. rewrite Hi' in Hi''. discriminate Hi''.
    + destruct Hown as [Hsame ->]. rewrite Hi in Hi'. discriminate Hi'.
  - rewrite Hframe by (by apply other_task). apply HP. by rewrite <- Hothers.
Qed.

End OneSymbol.

(** A symbol that is not polled keeps its snapshot; the sweep touches
    neither the order tracker nor the log. *)
Lemma book_run_frame (sched : list nat) (pool pool' : list BookTask) (w w' : World) :
  shaped pool -> has_book w ->
  run_pool bookTask_step sched pool w = (Returned pool', w') ->
  Tracker (client w') = Tracker (client w)
  /\ warnings w' = warnings w
  /\ forall sym, sym ∉ allowed -> snapshot sym w' = snapshot sym w.
Proof.
  intros Hshape Hw Hrun.
  refine (proj1 (book_run_ind (fun p v =>
           Tracker (client v) = Tracker (client w)
           /\ warnings v = warnings w
           /\ forall sym, sym ∉ allowed -> snapshot sym v = snapshot sym w)
           _ sched pool w pool' w' Hshape Hw _ Hrun)); [|done].
  clear Hshape Hw Hrun. clear pool pool' w'.
  intros j pool w1 pool' w' Hshape Hw (Htr & Hwarn & Hout) Hstep.
  destruct (book_step_effect _ _ _ _ _ Hw Hshape Hstep)
    as (_ & _ & Htr' & Hwarn' & _ & Hframe & _).
  split; [congruence|]. split; [congruence|].
  intros sym Hsym. rewrite Hframe; [by apply Hout|].
  intros Hj. apply Hsym. by eapply list_elem_of_lookup_2.
Qed.

End BookSweepRuns.


(** C7.  One order-book sweep, its tasks running under any schedule, on a
    client with an order-book tracker and a table [allowed] of distinct
    symbols.  No step panics, nothing is logged, the order tracker and the
    snapshots of the symbols that are not polled are as before, and the
    tasks can always be brought to their end.  For a polled symbol the
    outcome of its own fetch decides, whatever the other tasks do and
    whether their fetches fail: after a failed fetch the task has ended and
    the symbol's snapshot is the one from before the sweep; after a
    successful fetch the snapshot is the one from before the sweep until
    the task writes, and from then on exactly the fetched bids and asks. *)
Theorem book_sweep_isolated `{E : Externals} (w : World) :
  is_Some (OrderBookTracker (client w)) ->
  NoDup allowed ->
  (forall sched : list nat,
     exists pool' w',
       run_pool bookTask_step sched book_tasks w = (Returned pool', w')
       /\ is_Some (OrderBookTracker (client w'))
       /\ Tracker (client w') = Tracker (client w)
       /\ warnings w' = warnings w
       /\ (forall sym, sym ∉ allowed -> snapshot sym w' = snapshot sym w)
       /\ exists sched' pool'' w'',
            run_pool bookTask_step sched' pool' w' = (Returned pool'', w'')
            /\ forallb book_done pool'' = true)
  /\ forall (sched1 sched2 : list nat) (i : nat) (sym : string)
            (pool1 : list BookTask) (w1 : World),
       run_pool bookTask_step sched1 book_tasks w = (Returned pool1, w1) ->
       pool1 !! i = Some (BFetch sym) ->
       exists pool2 w2,
         run_pool bookTask_step (sched1 ++ i :: sched2) book_tasks w = (Returned pool2, w2)
         /\ match GetOrderBook sym (venue w1) with
            | ((_, Some _), _) =>
                pool2 !! i = Some BDone /\ snapshot sym w2 = snapshot sym w
            | ((fetched, None), _) =>
                (pool2 !! i = Some (BUpdate sym (fst fetched) (snd fetched))
                 /\ snapshot sym w2 = snapshot sym w)
                \/ (pool2 !! i = Some BDone /\ snapshot sym w2 = Some fetched)
            end.
Proof.
  intros Hw Hnd. split.
  - intros sched.
    destruct (run_pool_returns bookTask_step has_book bookTask_step_returns
                sched book_tasks w Hw) as (pool' & w' & Hrun & Hw' & _).
    destruct (book_run_frame sched book_tasks pool' w w' book_tasks_shaped Hw Hrun)
      as (Htr & Hwarn & Hout).
    exists pool', w'. repeat (split; [done|]).
    destruct (pool_completes bookTask_step book_done has_book bookTask_finishes
                [] pool' w' Hw' eq_refl) as (sched' & pool'' & w'' & Hrest & Hall & _).
    by exists sched', pool'', w''.
  - intros sched1 sched2 i sym pool1 w1 Hrun1 Hi.
    destruct (book_run_ind (fun _ _ => True) (fun _ _ _ _ _ _ _ _ _ => I)
                sched1 book_tasks w pool1 w1 book_tasks_shaped Hw I Hrun1)
      as (_ & Hshape1 & Hw1).
    assert (Hsym : allowed !! i = Some sym) by (by apply (Hshape1 i (BFetch sym))).
    assert (Hsnap1 : snapshot sym w1 = snapshot sym w).
    { by apply (fetching_task_waits i sym Hnd Hsym _ sched1 book_tasks pool1 w w1
                  book_tasks_shaped Hw eq_refl Hrun1). }
    destruct (pool_step_returns bookTask_step has_book bookTask_step_returns
                i pool1 w1 Hw1) as (pool1' & w1' & Hstep & Hw1' & _).
    destruct (book_step_effect _ _ _ _ _ Hw1 Hshape1 Hstep)
      as (_ & Hshape1' & _ & _ & _ & _ & Hown).
    rewrite Hi in Hown. destruct Hown as [Hsame Hi'].
    destruct (run_pool_returns bookTask_step has_book bookTask_step_returns
                sched2 pool1' w1' Hw1') as (pool2 & w2 & Hrun2 & _ & _).
    exists pool2, w2. split.
    { rewrite run_pool_app, Hrun1. cbn. unfold mbind, M_bind. by rewrite Hstep. }
    unfold after_fetch in Hi'.
    destruct (GetOrderBook sym (venue w1)) as [[fetched [e|]] v']; cbn in Hi'.
    + rewrite <- Hsnap1, <- (Hsame sym).
      by apply (finished_task_stays i sym Hnd Hsym _ sched2 pool1' pool2 w1' w2).
    + rewrite <- Hsnap1, <- (Hsame sym).
      destruct (updating_task_writes i sym Hnd Hsym (fst fetched) (snd fetched) _
                  sched2 pool1' pool2 w1' w2 Hshape1' Hw1' Hi' eq_refl Hrun2)
        as [H|[H1 H2]]; [by left|right].
      split; [done|]. by destruct fetched.
Qed.

Lemma book_sweep_isolated_witness :
  exists pool2 w2,
    @run_pool Mock.externals _ bookTask_step [0; 1; 1]%nat (@book_tasks Mock.externals)
        (Mock.world None (Some both_books_old) eth_book_fails)
      = (Returned pool2, w2)
    /\ pool2 !! 0%nat = Some BDone
    /\ @snapshot Mock.externals "eth_usdt" w2 = Some old_quotes
    /\ @snapshot Mock.externals "btc_usdt" w2 = Some new_quotes.
Proof.
  assert (Hnd : NoDup (@allowed Mock.externals))
    by (apply (bool_decide_unpack _); vm_compute; exact I).
  destruct (@book_sweep_isolated Mock.externals
              (Mock.world None (Some both_books_old) eth_book_fails)
              (mk_is_Some _ _ eq_refl) Hnd)
    as [_ Hfetch].
  destruct (Hfetch [] [1; 1]%nat 0%nat "eth_usdt" _ _ eq_refl eq_refl)
    as (pool2 & w2 & Hrun & Hdone & Heth).
  exists pool2, w2. split; [exact Hrun|]. split; [exact Hdone|]. split; [exact Heth|].
  cbn in Hrun. injection Hrun as _ <-. reflexivity.
Defined.

(** ** The admission token of the order-book sweep *)

Section SingleFlight.
Context `{E : Externals}.

Lemma filter_insert_length {A : Type} (P : A -> Prop) `{forall x, Decision (P x)}
    (l : list A) (g : nat) (x y : A) :
  l !! g = Some x ->
  (length (filter P (<[g := y]> l)) + (if decide (P x) then 1 else 0)
   = length (filter P l) + (if decide (P y) then 1 else 0))%nat.
Proof.
  revert g. induction l as [|a l IH]; intros [|g] Hg; try discriminate Hg; cbn in Hg.
  - injection Hg as ->. change (<[0%nat := y]> (x :: l)) with (y :: l).
    rewrite !filter_cons. repeat case_decide; cbn; lia.
  - change (<[S g := y]> (a :: l)) with (a :: <[g := y]> l).
    rewrite !filter_cons. specialize (IH g Hg).
    destruct (decide (P a)); cbn [length]; lia.
Qed.

(** An order-status task never touches the order-book tracker. *)
Lemma orderTask_step_book (t t' : OrderTask) (w w' : World) :
  orderTask_step t w = (Returned t', w') ->
  OrderBookTracker (client w') = OrderBookTracker (client w).
Proof.
  destruct t as [sym st|sym st [|order rest]|]; cbn.
  - run_monad.
    destruct (GetOrderByStatus _ _ _ _ _ _) as [[orders [e|]] v']; cbn;
      intros H; by injection H as _ <-.
  - intros H. by injection H as _ <-.
  - unfold reconcile.
    destruct (String.eqb st StatusOpened || String.eqb st StatusPartial);
      [|destruct (String.eqb st StatusCancelled);
        [|destruct (String.eqb st StatusCompleted)]];
      run_monad; destruct (Tracker (client w)); cbn; intros H;
      try discriminate H; by injection H as _ <-.
  - intros H. by injection H as _ <-.
Qed.

Lemma order_pool_step_book (j : nat) (pool pool' : list OrderTask) (w w' : World) :
  pool_step orderTask_step j pool w = (Returned pool', w') ->
  OrderBookTracker (client w') = OrderBookTracker (client w).
Proof.
  unfold pool_step. destruct (pool !! j) as [t|]; [|intros H; by injection H as _ <-].
  unfold mbind, M_bind.
  destruct (orderTask_step t w) as [[t'|] w1] eqn:Hstep; [|discriminate].
  intros H. injection H as _ <-. by eapply orderTask_step_book.
Qed.


Lemma token_inv_started (w : World) :
  token_inv (mkMachine w (Some 0%nat) USelect []).
Proof. split; cbn; try done. lia. Qed.

(** The first call of [Update] on a client whose ticker can be made. *)
Lemma run_first_Update (w : World) (evs : list Event) :
  0 < ticker_period (client w) ->
  run (EvUpdate :: evs) (boot w) = run evs (mkMachine w (Some 0%nat) USelect []).
Proof. intros Hpos. apply Z.ltb_lt in Hpos. cbn [run step boot upd world]. by rewrite Hpos. Qed.

(** [Update] on a client whose ticker cannot be made. *)
Lemma run_Update_panics (m : Machine) (evs : list Event) :
  upd m = UIdle ->
  ticker_period (client (world m)) <= 0 ->
  run (EvUpdate :: evs) m = Panicked.
Proof.
  intros Hupd Hneg. apply Z.ltb_ge in Hneg. cbn [run step]. by rewrite Hupd, Hneg.
Qed.

Lemma sweeps_nonempty (m : Machine) (g : nat) (s : BookSweep) :
  sweeps m !! g = Some s -> sweeps m ≠ [].
Proof. intros Hg Hnil. by rewrite Hnil in Hg. Qed.

Lemma in_flight_insert (m : Machine) (g : nat) (s s' : BookSweep) :
  sweeps m !! g = Some s ->
  (length (filter (fun s => holds_token s = true) (<[g := s']> (sweeps m)))
   + (if holds_token s then 1 else 0)
   = in_flight m + (if holds_token s' then 1 else 0))%nat.
Proof.
  intros Hg. unfold in_flight.
  pose proof (filter_insert_length (fun s => holds_token s = true) _ g s s' Hg) as Hc.
  destruct (holds_token s) eqn:Hs, (holds_token s') eqn:Hs';
    repeat case_decide; try congruence; lia.
Qed.

(** Every event but a new call of [Update] keeps the invariant, and no step
    panics. *)
Lemma token_inv_step (ev : Event) (m : Machine) :
  token_inv m -> ev ≠ EvUpdate ->
  exists m', step ev m = Returned m' /\ token_inv m'.
Proof.
  intros Hinv Hev. pose proof Hinv as [Hsem Hone Hshape Hbook Htracker].
  destruct ev as [| | |j| |g|g j|g]; [done|..]; cbn.
  - (* EvTick *)
    destruct (upd m) eqn:Hupd; try (by exists m).
    eexists. split; [reflexivity|]. unfold checkUpdate.
    assert (Hcount : forall l,
      l = sweeps m \/ l = sweeps m ++ [SSend] ->
      length (filter (fun s => holds_token s = true) l) = in_flight m).
    { intros l [->| ->]; [done|]. by rewrite filter_app, length_app, Nat.add_0_r. }
    split; cbn.
    + unfold in_flight. cbn. rewrite Hcount; [done|].
      destruct (OrderBookTracker (client (world m))); auto.
    + unfold in_flight. cbn. rewrite Hcount; [done|].
      destruct (OrderBookTracker (client (world m))); auto.
    + intros g tasks Hg. destruct (OrderBookTracker (client (world m))).
      * apply lookup_app_Some in Hg as [Hg|[_ Hg]]; [by eapply Hshape|].
        apply list_lookup_singleton_Some in Hg as [_ Hg]. discriminate Hg.
      * by eapply Hshape.
    + intros Hne. destruct (OrderBookTracker (client (world m))) eqn:Hbk;
        [by eexists | by apply Hbook].
    + intros pool Hpool. destruct (Tracker (client (world m))) eqn:Htr;
        [by eexists | discriminate Hpool].
  - (* EvStop *)
    destruct (upd m) eqn:Hupd; try (by exists m).
    eexists. split; [reflexivity|]. by split.
  - (* EvOrder *)
    destruct (upd m) as [| |pool] eqn:Hupd; try (by exists m).
    destruct (pool_step_returns orderTask_step has_tracker orderTask_step_returns
                j pool (world m) (Htracker pool eq_refl))
      as (pool' & w' & Hstep & Hw' & _).
    rewrite Hstep. eexists. split; [reflexivity|].
    split; cbn; try done.
    intros Hne. unfold has_book. rewrite (order_pool_step_book _ _ _ _ _ Hstep).
    by apply Hbook.
  - (* EvJoin *)
    destruct (upd m) as [| |pool] eqn:Hupd; try (by exists m).
    destruct (forallb order_done pool); [|by exists m].
    eexists. split; [reflexivity|]. by split.
  - (* EvSend *)
    destruct (sweeps m !! g) as [[|tasks|]|] eqn:Hg;
      try (by exists m).
    destruct (sem m) as [[|n]|] eqn:Hs; try (by exists m).
    eexists. split; [reflexivity|].
    pose proof (in_flight_insert m g SSend (SWait book_tasks) Hg) as Hc. cbn in Hc.
    assert (H0 : in_flight m = 0%nat) by congruence.
    split; cbn.
    + unfold in_flight. cbn. f_equal. lia.
    + unfold in_flight. cbn. lia.
    + intros g' tasks Hg'. destruct (decide (g' = g)) as [->|Hne].
      * rewrite list_lookup_insert_eq in Hg' by (by eapply lookup_lt_Some).
        injection Hg' as <-. apply book_tasks_shaped.
      * rewrite list_lookup_insert_ne in Hg' by done. by eapply Hshape.
    + intros _. by eapply Hbook, sweeps_nonempty.
    + done.
  - (* EvBook *)
    destruct (sweeps m !! g) as [[|tasks|]|] eqn:Hg;
      try (by exists m).
    assert (Hw : has_book (world m)) by (by eapply Hbook, sweeps_nonempty).
    destruct (pool_step_returns bookTask_step has_book bookTask_step_returns
                j tasks (world m) Hw) as (tasks' & w' & Hstep & Hw' & _).
    rewrite Hstep. eexists. split; [reflexivity|].
    pose proof (in_flight_insert m g (SWait tasks) (SWait tasks') Hg) as Hc. cbn in Hc.
    destruct (book_step_effect _ _ _ _ _ Hw (Hshape g tasks Hg) Hstep)
      as (_ & Hshape' & Htr & _).
    split; cbn.
    + unfold in_flight. cbn. rewrite Hsem. f_equal. lia.
    + unfold in_flight. cbn. lia.
    + intros g' ts Hg'. destruct (decide (g' = g)) as [->|Hne].
      * rewrite list_lookup_insert_eq in Hg' by (by eapply lookup_lt_Some).
        by injection Hg' as <-.
      * rewrite list_lookup_insert_ne in Hg' by done. by eapply Hshape.
    + done.
    + intros pool Hpool. unfold has_tracker. rewrite Htr. by eapply Htracker.
  - (* EvRecv *)
    destruct (sweeps m !! g) as [[|tasks|]|] eqn:Hg;
      try (by exists m).
    destruct (sem m) as [[|n]|] eqn:Hs; try (by exists m).
    destruct (forallb book_done tasks); [|by exists m].
    eexists. split; [reflexivity|].
    pose proof (in_flight_insert m g (SWait tasks) SExit Hg) as Hc. cbn in Hc.
    assert (H1 : in_flight m = S n) by congruence.
    split; cbn.
    + unfold in_flight. cbn. f_equal. lia.
    + unfold in_flight. cbn. lia.
    + intros g' ts Hg'. destruct (decide (g' = g)) as [->|Hne].
      * rewrite list_lookup_insert_eq in Hg' by (by eapply lookup_lt_Some).
        discriminate Hg'.
      * rewrite list_lookup_insert_ne in Hg' by done. by eapply Hshape.
    + intros _. by eapply Hbook, sweeps_nonempty.
    + done.
Qed.

Lemma token_inv_run (evs : list Event) (m : Machine) :
  token_inv m -> EvUpdate ∉ evs ->
  exists m', run evs m = Returned m' /\ token_inv m'.
Proof.
  revert m. induction evs as [|ev evs IH]; intros m Hinv Hevs.
  - by exists m.
  - apply not_elem_of_cons in Hevs as [Hev Hevs].
    destruct (token_inv_step ev m Hinv) as (m1 & Hstep & Hinv1); [done|].
    destruct (IH m1 Hinv1 Hevs) as (m' & Hrun & Hinv').
    exists m'. cbn. by rewrite Hstep.
Qed.

End SingleFlight.

Section TasksPerSymbol.
Context `{E : Externals}.

Lemma filter_unique_length {A : Type} (P : A -> Prop) `{forall x, Decision (P x)}
    (l : list A) :
  (forall i j x y, l !! i = Some x -> l !! j = Some y -> P x -> P y -> i = j) ->
  (length (filter P l) <= 1)%nat.
Proof.
  induction l as [|a l IH]; intros Huniq; [cbn; lia|].
  rewrite filter_cons. destruct (decide (P a)) as [Ha|Ha].
  - destruct (filter P l) as [|z zs] eqn:Hf; [cbn; lia|].
    assert (Hz : z ∈ filter P l) by (rewrite Hf; apply list_elem_of_here).
    apply list_elem_of_filter in Hz as [HPz Hz].
    apply list_elem_of_lookup in Hz as [j Hj].
    discriminate (Huniq 0%nat (S j) a z eq_refl Hj Ha HPz).
  - apply IH. intros i j x y Hi Hj Hx Hy.
    by injection (Huniq (S i) (S j) x y Hi Hj Hx Hy).
Qed.

Lemma task_on_sym (sym : string) (t : BookTask) :
  task_on sym t = true -> task_sym t = Some sym.
Proof.
  destruct t as [s|s bids asks|]; cbn; try discriminate;
    intros Hs; apply String.eqb_eq in Hs; by subst.
Qed.

(** A sweep has at most one task at work on a symbol. *)
Lemma one_task_per_symbol (sym : string) (tasks : list BookTask) :
  NoDup allowed -> shaped tasks ->
  (length (filter (fun t => task_on sym t = true) tasks) <= 1)%nat.
Proof.
  intros Hnd Hshape. apply filter_unique_length.
  intros i j x y Hi Hj Hx Hy.
  apply (NoDup_lookup allowed i j sym Hnd).
  - by apply (Hshape i x), task_on_sym.
  - by apply (Hshape j y), task_on_sym.
Qed.

Lemma running_le_holding (sym : string) (l : list BookSweep) :
  NoDup allowed ->
  (forall tasks, SWait tasks ∈ l -> shaped tasks) ->
  (length (filter (fun t => task_on sym t = true) (flat_map tasks_of l))
   <= length (filter (fun s => holds_token s = true) l))%nat.
Proof.
  intros Hnd. induction l as [|s l IH]; intros Hshape; [cbn; lia|].
  cbn [flat_map]. rewrite filter_app, length_app, filter_cons.
  assert (IH' := IH (fun tasks Hin => Hshape tasks (list_elem_of_further _ _ _ Hin))).
  destruct s as [|tasks|]; cbn [tasks_of holds_token].
  - rewrite decide_False by done. cbn. lia.
  - rewrite decide_True by done. cbn [length].
    pose proof (one_task_per_symbol sym tasks Hnd (Hshape tasks (list_elem_of_here _ _))).
    lia.
  - rewrite decide_False by done. cbn. lia.
Qed.

End TasksPerSymbol.

(** C6 fails on the code.  [Update] is called, a tick starts a sweep, the
    sweep takes the token, [Stop] ends the run, and [Update] is called
    again: it assigns a fresh channel to [c.sem] while the first sweep
    still holds the token of the old one.  The sweep of the next tick
    passes its send at once, two sweeps are in flight, and two tasks fetch
    the book of the same symbol. *)
Lemma two_sweeps_after_restart :
  exists m,
    @run Mock.externals
      [EvUpdate; EvTick; EvSend 0%nat; EvStop; EvUpdate; EvTick; EvSend 1%nat]
      (boot (Mock.world None (Some ∅) Mock.quiet)) = Returned m
    /\ in_flight m = 2%nat
    /\ running_on "eth_usdt" m = 2%nat
    /\ sweeps m = [SWait [BFetch "eth_usdt"; BFetch "btc_usdt"];
                   SWait [BFetch "eth_usdt"; BFetch "btc_usdt"]].
Proof. eexists. split; [reflexivity|]. split; [reflexivity|]. split; reflexivity. Qed.

(** X12.  The first run of [Update] on a client, with a refresh interval
    for which the ticker can be made, and as long as [Update] is not called
    again: every run of the machine goes on without a panic and at most one
    order-book sweep is between its send on [c.sem] and its receive; with
    distinct symbols in [allowed], at most one task is at work on a symbol.
    A sweep waiting at its send stays where it is while another sweep holds
    the token: its own step changes nothing, no other step removes it, and
    once the token is free its step takes the token and starts its
    tasks. *)
Theorem single_flight_in_first_run `{E : Externals} (w : World) (evs : list Event) :
  0 < ticker_period (client w) ->
  EvUpdate ∉ evs ->
  exists m,
    run (EvUpdate :: evs) (boot w) = Returned m
    /\ (in_flight m <= 1)%nat
    /\ (NoDup allowed -> forall sym, (running_on sym m <= 1)%nat)
    /\ forall g, sweeps m !! g = Some SSend ->
         (in_flight m = 1%nat -> step (EvSend g) m = Returned m)
         /\ (in_flight m = 0%nat ->
             exists m', step (EvSend g) m = Returned m'
                        /\ sweeps m' !! g = Some (SWait book_tasks)
                        /\ in_flight m' = 1%nat)
         /\ (forall ev m', step ev m = Returned m' ->
               sweeps m' !! g = Some SSend
               \/ (ev = EvSend g /\ in_flight m = 0%nat
                   /\ sweeps m' !! g = Some (SWait book_tasks))).
Proof.
  intros Hpos Hevs.
  destruct (token_inv_run evs _ (token_inv_started w) Hevs) as (m & Hrun & Hinv).
  exists m. split; [by rewrite run_first_Update|].
  pose proof Hinv as [Hsem Hone Hshape _ _].
  split; [exact Hone|]. split.
  { intros Hnd sym. etransitivity; [|exact Hone].
    apply running_le_holding; [done|].
    intros tasks Hin. apply list_elem_of_lookup in Hin as [g Hg]. by eapply Hshape. }
  intros g Hg. split; [|split].
  - intros H1. cbn. rewrite Hg, Hsem, H1. reflexivity.
  - intros H0. destruct (token_inv_step (EvSend g) m Hinv) as (m' & Hstep & Hinv');
      [done|].
    exists m'. split; [exact Hstep|].
    cbn in Hstep. rewrite Hg, Hsem, H0 in Hstep. injection Hstep as <-.
    split.
    + cbn. apply list_lookup_insert_eq. by eapply lookup_lt_Some.
    + destruct Hinv' as [Hsem' _ _ _ _]. cbn in Hsem'. by injection Hsem'.
  - intros ev m' Hstep.
    destruct ev as [| | |j| |g'|g' j|g']; cbn in Hstep.
    + destruct (upd m); [destruct (0 <? _)%Z; [|discriminate Hstep]| |];
        injection Hstep as <-; by left.
    + destruct (upd m); injection Hstep as <-; try by left.
      left. unfold checkUpdate. cbn.
      destruct (OrderBookTracker (client (world m))); [|done].
      by apply lookup_app_l_Some.
    + destruct (upd m); injection Hstep as <-; by left.
    + destruct (upd m) as [| |pool]; try (injection Hstep as <-; by left).
      destruct (pool_step orderTask_step j pool (world m)) as [[pool'|] w'];
        [|discriminate Hstep].
      injection Hstep as <-. by left.
    + destruct (upd m) as [| |pool]; try (injection Hstep as <-; by left).
      destruct (forallb order_done pool); injection Hstep as <-; by left.
    + destruct (decide (g' = g)) as [->|Hne].
      * rewrite Hg, Hsem in Hstep.
        destruct (in_flight m) as [|n] eqn:Hn; injection Hstep as <-; [|by left].
        right. split; [done|]. split; [done|].
        cbn. apply list_lookup_insert_eq. by eapply lookup_lt_Some.
      * destruct (sweeps m !! g') as [[|tasks|]|]; try (injection Hstep as <-; by left).
        destruct (sem m) as [[|n]|]; injection Hstep as <-; try by left.
        left. cbn. by rewrite list_lookup_insert_ne.
    + destruct (sweeps m !! g') as [[|tasks|]|] eqn:Hg';
        try (injection Hstep as <-; by left).
      destruct (pool_step bookTask_step j tasks (world m)) as [[tasks'|] w'];
        [|discriminate Hstep].
      injection Hstep as <-. left. cbn. rewrite list_lookup_insert_ne; [done|].
      intros ->. rewrite Hg in Hg'. discriminate Hg'.
    + destruct (sweeps m !! g') as [[|tasks|]|] eqn:Hg';
        try (injection Hstep as <-; by left).
      destruct (sem m) as [[|n]|]; try (injection Hstep as <-; by left).
      destruct (forallb book_done tasks); injection Hstep as <-; [|by left].
      left. cbn. rewrite list_lookup_insert_ne; [done|].
      intros ->. rewrite Hg in Hg'. discriminate Hg'.
Qed.

Lemma single_flight_in_first_run_witness :
  exists m,
    @run Mock.externals [EvUpdate; EvTick; EvSend 0%nat; EvTick]
      (boot (Mock.world None (Some ∅) Mock.quiet)) = Returned m
    /\ (in_flight m <= 1)%nat
    /\ sweeps m !! 1%nat = Some SSend
    /\ step (EvSend 1%nat) m = Returned m.
Proof.
  assert (Hevs : EvUpdate ∉ [EvTick; EvSend 0%nat; EvTick]).
  { intros Hin.
    repeat (apply elem_of_cons in Hin as [Hin|Hin]; [discriminate Hin|]).
    by apply elem_of_nil in Hin. }
  destruct (@single_flight_in_first_run Mock.externals
              (Mock.world None (Some ∅) Mock.quiet) _ eq_refl Hevs)
    as (m & Hrun & Hone & _ & Hwaiting).
  exists m. split; [exact Hrun|]. split; [exact Hone|].
  cbn in Hrun. injection Hrun as <-.
  split; [reflexivity|].
  destruct (Hwaiting 1%nat eq_refl) as (Hblocked & _ & _).
  apply Hblocked. reflexivity.
Defined.


Lemma order_fetch_failure_isolated_witness :
  @pool_step Mock.externals _ orderTask_step 0%nat (@order_tasks Mock.externals)
      (Mock.world (Some ∅) None eth_opened_fails)
  = (Returned (<[0%nat := ODone]> (@order_tasks Mock.externals)),
     @mkWorld Mock.externals (@mkClient Mock.externals "key" "secret" 500 (Some ∅) None)
       eth_opened_fails 0
       [("c2cx: update order info failed %s", RemoteError "timeout")]).
Proof.
  destruct (@order_fetch_failure_isolated Mock.externals (@order_tasks Mock.externals)
              (Mock.world (Some ∅) None eth_opened_fails) (mk_is_Some _ _ eq_refl))
    as [Hfail _].
  destruct (Hfail 0%nat "eth_usdt" StatusOpened [] (RemoteError "timeout")
              eth_opened_fails eq_refl eq_refl) as [Hstep _].
  exact Hstep.
Defined.

(** * Further properties of the client *)

(** ** What a batch cancellation returns and leaves behind *)

Section BatchOutcome.
Context `{E : Externals}.

(** The loop cancels a prefix of its targets, stops there, and touches the
    entries of that prefix only. *)
Lemma CancelAll_loop_outcome (targets : list OrderInfo)
    (result : list (option OrderInfo)) (w : World) (tr : gmap Z Fields) :
  Tracker (client w) = Some tr ->
  (forall u, u ∈ targets -> tr !! OrderID u = Some (fields u)) ->
  NoDup (OrderID <$> targets) ->
  exists (pre post : list OrderInfo) (err : option error) (w' : World)
         (tr' : gmap Z Fields),
    targets = pre ++ post
    /\ Client.CancelAll_loop targets result w
       = (Returned (result
                    ++ ((fun u => Some (mkInfo (OrderID u)
                                          (set_status StatusCancelled (fields u))))
                          <$> pre), err), w')
    /\ (err = None <-> post = [])
    /\ Tracker (client w') = Some tr'
    /\ (forall u, u ∈ pre ->
          tr' !! OrderID u = Some (set_status StatusCancelled (fields u)))
    /\ (forall k, k ∉ OrderID <$> pre -> tr' !! k = tr !! k).
Proof.
  revert result w tr. induction targets as [|u targets IH];
    intros result w tr Htr Hin Hnd.
  - exists [], [], None, w, tr. cbn. rewrite app_nil_r.
    repeat split; try done. intros u Hu. by apply elem_of_nil in Hu.
  - cbn [Client.CancelAll_loop]. unfold mbind, M_bind.
    destruct (CancelOrder (Key (client w)) (Secret (client w)) (OrderID u) (venue w))
      as [err v'] eqn:Hcancel.
    rewrite (Cancel_run _ _ _ _ _ Htr Hcancel).
    rewrite fmap_cons in Hnd. apply NoDup_cons in Hnd as [Hfresh Hnd].
    destruct err as [e|].
    + exists [], (u :: targets), (Some e), (set_venue v' w), tr. cbn.
      rewrite app_nil_r. repeat split; try done.
      intros u' Hu'. by apply elem_of_nil in Hu'.
    + cbn. unfold OrderTracker.Get.
      rewrite Cancel_lookup, (Hin u) by apply list_elem_of_here. cbn.
      destruct (IH (result ++ [Some (mkInfo (OrderID u)
                                       (set_status StatusCancelled (fields u)))])
                  (set_tracker (OrderTracker.Cancel (OrderID u) tr) (set_venue v' w))
                  (OrderTracker.Cancel (OrderID u) tr) eq_refl)
        as (pre & post & err & w' & tr' & -> & Hrun & Herr & Htr' & Hpre & Hframe);
        [|done|].
      { intros u' Hu'. rewrite Cancel_frame; [apply Hin; by apply list_elem_of_further|].
        intros Heq. apply Hfresh. rewrite <- Heq. by apply list_elem_of_fmap_2. }
      exists (u :: pre), post, err, w', tr'.
      split; [done|]. split; [by rewrite Hrun, fmap_cons, <- app_assoc|].
      split; [done|]. split; [done|]. split.
      * intros u' Hu'. apply elem_of_cons in Hu' as [->|Hu']; [|by apply Hpre].
        rewrite Hframe.
        -- rewrite Cancel_lookup, (Hin u) by apply list_elem_of_here. done.
        -- intros Hk. apply Hfresh. rewrite fmap_app. apply elem_of_app. by left.
      * intros k Hk. rewrite fmap_cons in Hk. apply not_elem_of_cons in Hk as [Hne Hk].
        rewrite Hframe by done. by apply Cancel_frame.
Qed.

End BatchOutcome.

(** X1.  On a client with a tracker [CancelAll] and [CancelMarket] always
    return.  The slice they return holds no nil pointer: it is the list of
    the refreshed, cancelled records of a prefix of the orders they
    enumerate, and the error is nil exactly when that prefix is the whole
    enumeration. *)
Theorem batch_cancel_returns_prefix `{E : Externals} (w : World) (tr : gmap Z Fields) :
  Tracker (client w) = Some tr ->
  (exists (pre post : list OrderInfo) (err : option error) (w' : World),
     OrderTracker.Executed tr = pre ++ post
     /\ Client.CancelAll w
        = (Returned ((fun u => Some (mkInfo (OrderID u)
                                       (set_status StatusCancelled (fields u))))
                       <$> pre, err), w')
     /\ (err = None <-> post = []))
  /\ forall sym sym' : string,
       normalize sym = (sym', None) ->
       exists (pre post : list OrderInfo) (err : option error) (w' : World),
         filter (fun u => TradePair u = sym') (OrderTracker.Executed tr) = pre ++ post
         /\ Client.CancelMarket sym w
            = (Returned (Some ((fun u => Some (mkInfo (OrderID u)
                                                 (set_status StatusCancelled (fields u))))
                                 <$> pre), err), w')
         /\ (err = None <-> post = []).
Proof.
  intros Htr. split.
  - destruct (CancelAll_loop_outcome (OrderTracker.Executed tr) [] w tr Htr)
      as (pre & post & err & w' & tr' & Hsplit & Hrun & Herr & _).
    { intros u Hu. by apply Executed_spec in Hu as [Hu _]. }
    { apply Executed_NoDup. }
    exists pre, post, err, w'. rewrite (CancelAll_unfold w tr Htr). done.
  - intros sym sym' Hnorm.
    destruct (market_targets sym' tr) as [Hin Hnd].
    destruct (CancelAll_loop_outcome _ [] w tr Htr Hin Hnd)
      as (pre & post & err & w' & tr' & Hsplit & Hrun & Herr & _).
    exists pre, post, err, w'.
    rewrite (CancelMarket_unfold sym sym' w tr Htr Hnorm), Hrun. done.
Qed.

Lemma batch_cancel_returns_prefix_witness :
  exists (pre post : list (@OrderInfo Mock.externals)) (err : option error)
         (w' : @World Mock.externals),
    @OrderTracker.Executed Mock.externals four_orders = pre ++ post
    /\ @Client.CancelAll Mock.externals
         (Mock.world (Some four_orders) None second_cancel_fails)
       = (Returned ((fun u => Some (mkInfo (OrderID u)
                                      (set_status StatusCancelled (fields u))))
                      <$> pre, err), w')
    /\ (err = None <-> post = []).
Proof.
  exact (proj1 (@batch_cancel_returns_prefix Mock.externals
                  (Mock.world (Some four_orders) None second_cancel_fails)
                  four_orders eq_refl)).
Defined.

Section BatchFrame.
Context `{E : Externals}.

(** What the loop leaves of the tracker: the same ids, and the records of
    the orders that are not among its targets. *)
Lemma CancelAll_loop_keeps (targets : list OrderInfo) (w w' : World)
    (tr : gmap Z Fields) (r : Run (list (option OrderInfo) * option error)) :
  Tracker (client w) = Some tr ->
  (forall u, u ∈ targets -> tr !! OrderID u = Some (fields u)) ->
  NoDup (OrderID <$> targets) ->
  Client.CancelAll_loop targets [] w = (r, w') ->
  exists tr',
    Tracker (client w') = Some tr'
    /\ dom tr' = dom tr
    /\ forall k f, tr !! k = Some f -> mkInfo k f ∉ targets -> tr' !! k = Some f.
Proof.
  intros Htr Hin Hnd Hrun.
  destruct (CancelAll_loop_outcome targets [] w tr Htr Hin Hnd)
    as (pre & post & err & w1 & tr' & -> & Hrun1 & _ & Htr' & Hpre & Hframe).
  rewrite Hrun in Hrun1. injection Hrun1 as _ <-.
  exists tr'. split; [done|]. split.
  - apply set_eq. intros k. rewrite !elem_of_dom.
    destruct (decide (k ∈ OrderID <$> pre)) as [Hk|Hk]; [|by rewrite Hframe].
    apply list_elem_of_fmap in Hk as (u & -> & Hu).
    rewrite (Hpre u Hu), (Hin u) by (apply elem_of_app; by left).
    split; intros _; by eexists.
  - intros k f Hf Hout. rewrite Hframe; [done|].
    intros Hk. apply list_elem_of_fmap in Hk as (u & -> & Hu).
    apply Hout, elem_of_app. left.
    assert (Hfu : tr !! OrderID u = Some (fields u))
      by (apply Hin, elem_of_app; by left).
    rewrite Hf in Hfu. injection Hfu as ->. by destruct u.
Qed.

End BatchFrame.

(** X2.  A batch cancellation never adds or removes an order of the tracker
    and changes live orders only: whatever its outcome, [CancelAll] leaves
    the record of every settled order as it was, and [CancelMarket]
    moreover the record of every order on another symbol. *)
Theorem batch_cancel_frame `{E : Externals} (w : World) (tr : gmap Z Fields) :
  Tracker (client w) = Some tr ->
  (forall r w',
     Client.CancelAll w = (r, w') ->
     exists tr',
       Tracker (client w') = Some tr'
       /\ dom tr' = dom tr
       /\ forall id f, tr !! id = Some f -> live f = false -> tr' !! id = Some f)
  /\ forall (sym sym' : string) r w',
       normalize sym = (sym', None) ->
       Client.CancelMarket sym w = (r, w') ->
       exists tr',
         Tracker (client w') = Some tr'
         /\ dom tr' = dom tr
         /\ forall id f, tr !! id = Some f ->
              live f = false \/ symbol f ≠ sym' -> tr' !! id = Some f.
Proof.
  intros Htr. split.
  - intros r w' Hrun. rewrite (CancelAll_unfold w tr Htr) in Hrun.
    destruct (CancelAll_loop_keeps (OrderTracker.Executed tr) w w' tr r Htr)
      as (tr' & Htr' & Hdom & Hkeep); try done.
    { intros u Hu. by apply Executed_spec in Hu as [Hu _]. }
    { apply Executed_NoDup. }
    exists tr'. split; [done|]. split; [done|].
    intros id f Hf Hsettled. apply Hkeep; [done|].
    intros Hin. apply Executed_spec in Hin as [_ Hlive]. cbn in Hlive. congruence.
  - intros sym sym' r w' Hnorm Hrun.
    rewrite (CancelMarket_unfold sym sym' w tr Htr Hnorm) in Hrun.
    destruct (market_targets sym' tr) as [Hin Hnd].
    destruct (Client.CancelAll_loop _ [] w) as [r1 w1] eqn:Hloop.
    destruct (CancelAll_loop_keeps _ w w1 tr r1 Htr Hin Hnd Hloop)
      as (tr' & Htr' & Hdom & Hkeep).
    assert (w' = w1) as -> by (destruct r1 as [[result err]|]; by injection Hrun).
    exists tr'. split; [done|]. split; [done|].
    intros id f Hf Hout. apply Hkeep; [done|].
    intros Hmem. apply list_elem_of_filter in Hmem as [Hsym Hmem].
    apply Executed_spec in Hmem as [_ Hlive]. unfold TradePair in Hsym.
    cbn in Hsym, Hlive.
    destruct Hout as [Hsettled|Hother]; [congruence | by apply Hother].
Qed.

Lemma batch_cancel_frame_witness :
  exists tr',
    @Tracker Mock.externals
      (client (snd (@Client.CancelMarket Mock.externals "eth_usdt"
                      (Mock.world (Some four_orders) None Mock.quiet)))) = Some tr'
    /\ dom tr' = dom four_orders
    /\ tr' !! 5 = Some (live_order "btc_usdt").
Proof.
  destruct (@batch_cancel_frame Mock.externals
              (Mock.world (Some four_orders) None Mock.quiet) four_orders eq_refl)
    as [_ Hmarket].
  destruct (Hmarket "eth_usdt" "eth_usdt" _ _ eq_refl (surjective_pairing _))
    as (tr' & Htr' & Hdom & Hkeep).
  exists tr'. split; [exact Htr'|]. split; [exact Hdom|].
  apply Hkeep; [reflexivity|]. right. discriminate.
Defined.

(** X3.  After a batch cancellation that returned a nil error nothing it
    was aimed at is left live: after [CancelAll] the tracker lists no
    executed order at all, and after [CancelMarket] none on the symbol;
    the returned slice has one record per order that was live. *)
Theorem batch_cancel_success_clears `{E : Externals} (w : World) (tr : gmap Z Fields) :
  Tracker (client w) = Some tr ->
  (forall done w',
     Client.CancelAll w = (Returned (done, None), w') ->
     length done = length (OrderTracker.Executed tr)
     /\ Client.Executed w' = (Returned [], w'))
  /\ forall (sym sym' : string) done w',
       normalize sym = (sym', None) ->
       Client.CancelMarket sym w = (Returned (Some done, None), w') ->
       length done
       = length (filter (fun u => TradePair u = sym') (OrderTracker.Executed tr))
       /\ exists l, Client.Executed w' = (Returned l, w')
                    /\ forall u, u ∈ l -> TradePair u ≠ sym'.
Proof.
  intros Htr.
  assert (Hcleared : forall targets done w',
    (forall u, u ∈ targets -> u ∈ OrderTracker.Executed tr) ->
    NoDup (OrderID <$> targets) ->
    Client.CancelAll_loop targets [] w = (Returned (done, None), w') ->
    length done = length targets
    /\ exists tr', Tracker (client w') = Some tr'
         /\ forall u, u ∈ OrderTracker.Executed tr' ->
              u ∈ OrderTracker.Executed tr /\ u ∉ targets).
  { intros targets done w' Hsub Hnd Hrun.
    destruct (CancelAll_loop_outcome targets [] w tr Htr)
      as (pre & post & err & w1 & tr' & Hsplit & Hrun1 & Herr & Htr' & Hpre & Hframe);
      [|done|].
    { intros u Hu. by apply Hsub, Executed_spec in Hu as [Hu _]. }
    rewrite Hrun in Hrun1. injection Hrun1 as -> <- <-.
    assert (post = []) as -> by (by apply Herr).
    rewrite app_nil_r in Hsplit. subst pre.
    split; [by rewrite length_fmap|].
    exists tr'. split; [done|].
    intros u Hu. apply Executed_spec in Hu as [Hf Hlive].
    assert (Hout : OrderID u ∉ OrderID <$> targets).
    { intros Hk. apply list_elem_of_fmap in Hk as (u' & Hid & Hu').
      rewrite Hid, (Hpre u' Hu') in Hf. injection Hf as Hf.
      rewrite <- Hf in Hlive. discriminate Hlive. }
    split.
    - apply Executed_spec. by rewrite <- Hframe.
    - intros Hu. apply Hout. by apply list_elem_of_fmap_2. }
  split.
  - intros done w' Hrun. rewrite (CancelAll_unfold w tr Htr) in Hrun.
    destruct (Hcleared _ done w' (fun _ H => H) (Executed_NoDup tr) Hrun)
      as (Hlen & tr' & Htr' & Hleft).
    split; [done|]. unfold Client.Executed. run_monad. rewrite Htr'. f_equal. f_equal.
    apply elem_of_nil_inv. intros u Hu. by destruct (Hleft u Hu).
  - intros sym sym' done w' Hnorm Hrun.
    rewrite (CancelMarket_unfold sym sym' w tr Htr Hnorm) in Hrun.
    destruct (Client.CancelAll_loop _ [] w) as [[[result err]|] w1] eqn:Hloop;
      [|discriminate Hrun].
    injection Hrun as -> -> ->.
    destruct (Hcleared _ done w' (fun u Hu => proj2 (proj1 (list_elem_of_filter _ _ _) Hu))
                (proj2 (market_targets sym' tr)) Hloop)
      as (Hlen & tr' & Htr' & Hleft).
    split; [done|]. exists (OrderTracker.Executed tr').
    split; [unfold Client.Executed; run_monad; by rewrite Htr'|].
    intros u Hu Hsym. destruct (Hleft u Hu) as [Hexec Hout].
    apply Hout, list_elem_of_filter. done.
Qed.

Lemma batch_cancel_success_clears_witness :
  exists done w',
    @Client.CancelAll Mock.externals (Mock.world (Some four_orders) None Mock.quiet)
      = (Returned (done, None), w')
    /\ length done = 4%nat
    /\ @Client.Executed Mock.externals w' = (Returned [], w').
Proof.
  destruct (@batch_cancel_success_clears Mock.externals
              (Mock.world (Some four_orders) None Mock.quiet) four_orders eq_refl)
    as [Hall _].
  eexists _, _. split; [reflexivity|].
  split; [reflexivity|]. exact (proj2 (Hall _ _ eq_refl)).
Defined.

(** ** How the trading operations and the queries compose *)

(** X4.  What [Cancel] hands back is what the queries report next.  When
    [Cancel] returns a record (the remote call did not fail), [OrderDetails]
    on the same id returns that record with the same error, and
    [OrderStatus] returns its status with the same error. *)
Theorem Cancel_then_query `{E : Externals} (orderID : Z) (w w' : World)
    (info : OrderInfo) (err : option error) :
  Client.Cancel orderID w = (Returned (Some info, err), w') ->
  Client.OrderDetails orderID w' = (Returned (info, err), w')
  /\ Client.OrderStatus orderID w' = (Returned (Status info, err), w').
Proof.
  unfold Client.Cancel, Client.OrderDetails, Client.OrderStatus. run_monad.
  destruct (CancelOrder _ _ _ _) as [[e|] v']; cbn; [intros H; discriminate H|].
  destruct (Tracker (client w)) as [tr|]; cbn; [|intros H; discriminate H].
  unfold OrderTracker.Get, OrderTracker.Status.
  destruct (OrderTracker.Cancel orderID tr !! orderID) as [f|] eqn:Hl; cbn;
    intros H; injection H as <- <- <-; cbn; by rewrite Hl.
Qed.

Lemma Cancel_then_query_witness :
  exists info w',
    @Client.Cancel Mock.externals 42
        (Mock.world (Some {[ 42 := submitted_42 ]}) None Mock.quiet)
      = (Returned (Some info, None), w')
    /\ @Client.OrderStatus Mock.externals 42 w' = (Returned (Status info, None), w')
    /\ Status info = StatusCancelled.
Proof.
  eexists _, _. split; [reflexivity|]. split; [|reflexivity].
  eapply proj2, (@Cancel_then_query Mock.externals 42
                   (Mock.world (Some {[ 42 := submitted_42 ]}) None Mock.quiet)).
  reflexivity.
Defined.

(** X5.  An order that [Buy] or [Sell] has placed can be queried at once:
    [OrderStatus] answers submitted, [OrderDetails] answers the record with
    the returned id, the side, the amount and the price, [Executed] lists
    that record and [Completed] does not. *)
Theorem Place_then_query `{E : Externals} (buy : bool) (sym : string)
    (pr amt : float64) (w w' : World) (id : Z) :
  is_Some (Tracker (client w)) ->
  (if buy then Client.Buy sym pr amt w else Client.Sell sym pr amt w)
    = (Returned (id, None), w') ->
  exists info l,
    Client.OrderStatus id w' = (Returned (StatusSubmitted, None), w')
    /\ Client.OrderDetails id w' = (Returned (info, None), w')
    /\ OrderID info = id
    /\ TradePair info = fst (normalize sym)
    /\ side (fields info) = (if buy then ActionBuy else ActionSell)
    /\ amount (fields info) = amt
    /\ price (fields info) = pr
    /\ Client.Executed w' = (Returned l, w')
    /\ info ∈ l
    /\ forall l', Client.Completed w' = (Returned l', w') -> info ∉ l'.
Proof.
  intros [tr Htr] Hrun.
  destruct (Place_run buy sym pr amt w tr Htr) as [Hrejected Hplaced].
  destruct (normalize sym) as [sym' [e|]] eqn:Hnorm.
  { rewrite (Hrejected sym' e eq_refl) in Hrun. discriminate Hrun. }
  destruct (CreateOrder (Key (client w)) (Secret (client w)) sym'
              (if buy then "buy" else "sell") PriceTypeMarket amt 1 pr (venue w))
    as [[id' err] v'] eqn:Hcreate.
  rewrite (Hplaced sym' id' err v' eq_refl Hcreate) in Hrun.
  destruct err as [e|]; [discriminate Hrun|]. injection Hrun as -> <-.
  set (f := mkFields sym' (if buy then ActionBuy else ActionSell) StatusSubmitted
                     amt pr None None).
  exists (mkInfo id f),
         (OrderTracker.Executed
            (OrderTracker.NewOrder sym' (if buy then ActionBuy else ActionSell)
               StatusSubmitted id amt pr tr)).
  unfold Client.OrderStatus, Client.OrderDetails, Client.Executed, Client.Completed.
  run_monad. unfold OrderTracker.Status, OrderTracker.Get.
  rewrite NewOrder_lookup. cbn.
  repeat (split; [reflexivity|]). split.
  - apply Executed_spec. cbn. by rewrite NewOrder_lookup.
  - intros l' Hl'. injection Hl' as <-.
    unfold OrderTracker.Completed, OrderTracker.infos.
    intros Hin. apply list_elem_of_fmap in Hin as ([k f'] & Heq & Hin).
    apply list_elem_of_filter in Hin as [Hst Hin].
    apply elem_of_map_to_list in Hin. cbn in Heq, Hst. injection Heq as <- <-.
    discriminate Hst.
Qed.

Lemma Place_then_query_witness :
  exists w',
    @Client.Sell Mock.externals "BTC_USDT" 100 1 (Mock.world (Some ∅) None Mock.quiet)
      = (Returned (42, None), w')
    /\ @Client.OrderStatus Mock.externals 42 w' = (Returned (StatusSubmitted, None), w').
Proof.
  eexists. split; [reflexivity|].
  destruct (@Place_then_query Mock.externals false "BTC_USDT" 100 1
              (Mock.world (Some ∅) None Mock.quiet) _ 42
              (mk_is_Some _ _ eq_refl) eq_refl)
    as (info & l & Hstatus & _).
  exact Hstatus.
Defined.

(** X6.  [Cancel] works on one order.  On a client with a tracker it always
    returns, and whatever the venue answers it leaves the tracker with the
    same ids and with every other order's record as it was; it touches
    neither the order-book tracker nor the log nor the clock. *)
Theorem Cancel_touches_one_order `{E : Externals} (orderID : Z) (w : World)
    (tr : gmap Z Fields) :
  Tracker (client w) = Some tr ->
  exists r w' tr',
    Client.Cancel orderID w = (Returned r, w')
    /\ Tracker (client w') = Some tr'
    /\ dom tr' = dom tr
    /\ (forall k, k ≠ orderID -> tr' !! k = tr !! k)
    /\ OrderBookTracker (client w') = OrderBookTracker (client w)
    /\ warnings w' = warnings w
    /\ clock w' = clock w.
Proof.
  intros Htr.
  destruct (CancelOrder (Key (client w)) (Secret (client w)) orderID (venue w))
    as [err v'] eqn:Hcancel.
  rewrite (Cancel_run _ _ _ _ _ Htr Hcancel). destruct err as [e|].
  - eexists _, _, tr. split; [reflexivity|]. by repeat split.
  - eexists _, _, _. split; [reflexivity|]. cbn.
    split; [reflexivity|]. split; [apply dom_alter_L|].
    split; [intros k Hk; by apply Cancel_frame|]. by repeat split.
Qed.

Lemma Cancel_touches_one_order_witness :
  exists r w' tr',
    @Client.Cancel Mock.externals 2 (Mock.world (Some four_orders) None Mock.quiet)
      = (Returned r, w')
    /\ @Tracker Mock.externals (client w') = Some tr'
    /\ dom tr' = dom four_orders
    /\ tr' !! 3 = Some (live_order "eth_usdt").
Proof.
  destruct (@Cancel_touches_one_order Mock.externals 2
              (Mock.world (Some four_orders) None Mock.quiet) four_orders eq_refl)
    as (r & w' & tr' & Hrun & Htr' & Hdom & Hframe & _).
  exists r, w', tr'. split; [exact Hrun|]. split; [exact Htr'|]. split; [exact Hdom|].
  rewrite Hframe by discriminate. reflexivity.
Defined.

(** ** What the order-status sweep leaves alone *)

Section OrderSweepFrame.
Context `{E : Externals}.

(** The loop body of the task writes to the tracker and reads the clock,
    nothing else. *)
Lemma reconcile_frame (sym st : string) (order : Order.t) (w w' : World) :
  reconcile sym st order w = (Returned tt, w') ->
  warnings w' = warnings w /\ venue w' = venue w
  /\ OrderBookTracker (client w') = OrderBookTracker (client w)
  /\ Key (client w') = Key (client w) /\ Secret (client w') = Secret (client w).
Proof.
  unfold reconcile.
  destruct (String.eqb st StatusOpened || String.eqb st StatusPartial);
    [|destruct (String.eqb st StatusCancelled);
      [|destruct (String.eqb st StatusCompleted)]];
    run_monad; destruct (Tracker (client w)); cbn; intros H;
    try discriminate H; by injection H as <-.
Qed.

(** One step of the pool adds at most one warning, and only when a task
    leaves its fetch. *)
Lemma order_pool_step_log (j : nat) (pool pool' : list OrderTask) (w w' : World) :
  pool_step orderTask_step j pool w = (Returned pool', w') ->
  OrderBookTracker (client w') = OrderBookTracker (client w)
  /\ Key (client w') = Key (client w) /\ Secret (client w') = Secret (client w)
  /\ exists added,
       warnings w' = warnings w ++ added
       /\ (forall x, x ∈ added -> fst x = "c2cx: update order info failed %s")
       /\ (length added + pending_fetches pool' <= pending_fetches pool)%nat.
Proof.
  unfold pool_step. destruct (pool !! j) as [t|] eqn:Hj.
  - unfold mbind, M_bind.
    destruct (orderTask_step t w) as [[t'|] w1] eqn:Hstep; [|discriminate].
    intros H. injection H as <- <-.
    pose proof (filter_insert_length (fun t => awaiting_fetch t = true) pool j t t' Hj)
      as Hcount.
    fold (pending_fetches (<[j := t']> pool)) in Hcount.
    fold (pending_fetches pool) in Hcount.
    destruct t as [sym st|sym st [|order rest]|]; cbn in Hstep.
    + revert Hstep. run_monad.
      destruct (GetOrderByStatus _ _ _ _ _ _) as [[orders [e|]] v']; cbn;
        intros H; injection H as <- <-; cbn; repeat (split; [done|]).
      * exists [("c2cx: update order info failed %s", e)].
        split; [done|]. split.
        -- intros x Hx. apply list_elem_of_singleton in Hx. by subst.
        -- cbn in Hcount |- *. repeat case_decide; try done; lia.
      * exists []. split; [by rewrite app_nil_r|]. split.
        -- intros x Hx. by apply elem_of_nil in Hx.
        -- cbn in Hcount |- *. repeat case_decide; try done; lia.
    + injection Hstep as <- <-. repeat (split; [done|]).
      exists []. split; [by rewrite app_nil_r|]. split.
      * intros x Hx. by apply elem_of_nil in Hx.
      * cbn in Hcount |- *. repeat case_decide; try done; lia.
    + unfold mbind, M_bind in Hstep.
      destruct (reconcile sym st order w) as [[[]|] w2] eqn:Hrec; [|discriminate Hstep].
      injection Hstep as <- <-.
      destruct (reconcile_frame _ _ _ _ _ Hrec) as (Hwarn & _ & Hbk & Hkey & Hsec).
      repeat (split; [done|]).
      exists []. split; [by rewrite app_nil_r|]. split.
      * intros x Hx. by apply elem_of_nil in Hx.
      * cbn in Hcount |- *. repeat case_decide; try done; lia.
    + injection Hstep as <- <-. repeat (split; [done|]).
      exists []. split; [by rewrite app_nil_r|]. split.
      * intros x Hx. by apply elem_of_nil in Hx.
      * cbn in Hcount |- *. repeat case_decide; try done; lia.
  - intros H. injection H as <- <-. repeat (split; [done|]).
    exists []. split; [by rewrite app_nil_r|]. split; [|cbn; lia].
    intros x Hx. by apply elem_of_nil in Hx.
Qed.

End OrderSweepFrame.

(** X7.  Under any schedule the order-status tasks leave the order-book
    tracker and the client's key and secret alone, and the log only grows,
    by warnings of the one format, at most one for each task that had not
    fetched yet: a (symbol, status) pair is reported at most once per
    sweep. *)
Theorem order_sweep_logs_once_per_pair `{E : Externals} (sched : list nat)
    (pool pool' : list OrderTask) (w w' : World) :
  run_pool orderTask_step sched pool w = (Returned pool', w') ->
  OrderBookTracker (client w') = OrderBookTracker (client w)
  /\ Key (client w') = Key (client w) /\ Secret (client w') = Secret (client w)
  /\ exists added,
       warnings w' = warnings w ++ added
       /\ (forall x, x ∈ added -> fst x = "c2cx: update order info failed %s")
       /\ (length added + pending_fetches pool' <= pending_fetches pool)%nat.
Proof.
  revert pool w. induction sched as [|j sched IH]; intros pool w Hrun.
  - cbn in Hrun. injection Hrun as <- <-. repeat (split; [done|]).
    exists []. split; [by rewrite app_nil_r|]. split; [|cbn; lia].
    intros x Hx. by apply elem_of_nil in Hx.
  - cbn in Hrun. unfold mbind, M_bind in Hrun.
    destruct (pool_step orderTask_step j pool w) as [[pool1|] w1] eqn:Hstep;
      [|discriminate Hrun].
    destruct (order_pool_step_log _ _ _ _ _ Hstep)
      as (Hbk1 & Hkey1 & Hsec1 & added1 & Hw1 & Hfmt1 & Hlen1).
    destruct (IH pool1 w1 Hrun) as (Hbk & Hkey & Hsec & added & Hw & Hfmt & Hlen).
    split; [congruence|]. split; [congruence|]. split; [congruence|].
    exists (added1 ++ added). split; [by rewrite Hw, Hw1, app_assoc|]. split.
    + intros x Hx. apply elem_of_app in Hx as [Hx|Hx]; auto.
    + rewrite length_app. lia.
Qed.

Lemma order_sweep_logs_once_per_pair_witness :
  exists pool' w' added,
    @run_pool Mock.externals _ orderTask_step [0; 0; 1; 0]%nat
        (@order_tasks Mock.externals) (Mock.world (Some ∅) None eth_opened_fails)
      = (Returned pool', w')
    /\ @warnings Mock.externals w' = [] ++ added
    /\ (length added + pending_fetches pool'
        <= pending_fetches (@order_tasks Mock.externals))%nat.
Proof.
  destruct (@order_sweep_logs_once_per_pair Mock.externals [0; 0; 1; 0]%nat
              (@order_tasks Mock.externals) _
              (Mock.world (Some ∅) None eth_opened_fails) _ eq_refl)
    as (_ & _ & _ & added & Hw & _ & Hlen).
  eexists _, _, added. split; [reflexivity|]. split; [exact Hw | exact Hlen].
Defined.

(** ** One order-status task from fetch to end *)

Section OneOrderTask.
Context `{E : Externals}.

Lemma reconcile_clock (sym st : string) (order : Order.t) (w : World)
    (tr : gmap Z Fields) :
  Tracker (client w) = Some tr ->
  exists w' tr',
    reconcile sym st order w = (Returned tt, w')
    /\ Tracker (client w') = Some tr'
    /\ clock w' = (clock w + (if String.eqb st StatusCompleted then 1 else 0))%nat
    /\ (st ≠ StatusOpened -> st ≠ StatusPartial -> st ≠ StatusCancelled ->
        st ≠ StatusCompleted -> tr' = tr).
Proof.
  intros Htr.
  destruct (decide (st = StatusOpened \/ st = StatusPartial)) as [Hop|Hop].
  { eexists _, _. split; [by apply reconcile_opened|]. split; [reflexivity|].
    split; [destruct Hop as [-> | ->]; cbn; lia | tauto]. }
  destruct (decide (st = StatusCancelled)) as [->|Hca].
  { eexists _, _. split; [by apply reconcile_cancelled|]. split; [reflexivity|].
    split; [cbn; lia | tauto]. }
  destruct (decide (st = StatusCompleted)) as [->|Hco].
  { eexists _, _. split; [by apply reconcile_completed|]. split; [reflexivity|].
    split; [cbn; lia | tauto]. }
  exists w, tr. split; [apply reconcile_other; tauto|]. split; [done|].
  apply String.eqb_neq in Hco. rewrite Hco. split; [lia|done].
Qed.

Lemma order_loop_runs (sym st : string) (orders : list Order.t) (w : World)
    (tr : gmap Z Fields) :
  Tracker (client w) = Some tr ->
  exists w' tr',
    run_pool orderTask_step (replicate (S (length orders)) 0%nat)
        [OLoop sym st orders] w = (Returned [ODone], w')
    /\ Tracker (client w') = Some tr'
    /\ venue w' = venue w /\ warnings w' = warnings w
    /\ clock w' = (clock w + (if String.eqb st StatusCompleted
                              then length orders else 0))%nat
    /\ (st ≠ StatusOpened -> st ≠ StatusPartial -> st ≠ StatusCancelled ->
        st ≠ StatusCompleted -> tr' = tr).
Proof.
  revert w tr. induction orders as [|order rest IH]; intros w tr Htr.
  - exists w, tr. split; [reflexivity|]. split; [done|].
    split; [done|]. split; [done|]. split; [|done].
    destruct (String.eqb st StatusCompleted); cbn; lia.
  - destruct (reconcile_clock sym st order w tr Htr) as (w1 & tr1 & Hrec & Htr1 & Hclk & Hsame).
    destruct (reconcile_frame _ _ _ _ _ Hrec) as (Hwarn1 & Hven1 & _).
    destruct (IH w1 tr1 Htr1) as (w' & tr' & Hrun & Htr' & Hven & Hwarn & Hclk' & Hsame').
    exists w', tr'. split.
    { cbn [length replicate run_pool]. unfold mbind at 1, M_bind at 1. unfold pool_step.
      cbn [lookup list_lookup]. unfold mbind at 1, M_bind at 1.
      rewrite (orderTask_loop_step _ _ _ _ _ _ Hrec). cbn. exact Hrun. }
    split; [done|]. split; [congruence|]. split; [congruence|]. split.
    + rewrite Hclk', Hclk. cbn [length]. destruct (String.eqb st StatusCompleted); lia.
    + intros H1 H2 H3 H4. rewrite (Hsame' H1 H2 H3 H4). by apply Hsame.
Qed.

End OneOrderTask.

(** X9.  An order-status task whose fetch succeeds with [n] orders ends
    after [n + 2] steps of its own.  It calls the venue once, logs nothing,
    and reads the local clock once per order when its status is completed
    and never otherwise.  For a status that is none of the four cases of
    the switch the fetch is still made and the tracker is left as it
    was. *)
Theorem order_task_runs_to_end `{E : Externals} (sym st : string)
    (orders : list Order.t) (w : World) (tr : gmap Z Fields) (v' : Venue) :
  Tracker (client w) = Some tr ->
  GetOrderByStatus (Key (client w)) (Secret (client w)) sym st (-1) (venue w)
    = ((orders, None), v') ->
  exists w' tr',
    run_pool orderTask_step (replicate (length orders + 2) 0%nat) [OFetch sym st] w
      = (Returned [ODone], w')
    /\ Tracker (client w') = Some tr'
    /\ venue w' = v'
    /\ warnings w' = warnings w
    /\ clock w' = (clock w + (if String.eqb st StatusCompleted
                              then length orders else 0))%nat
    /\ (st ≠ StatusOpened -> st ≠ StatusPartial -> st ≠ StatusCancelled ->
        st ≠ StatusCompleted -> tr' = tr).
Proof.
  intros Htr Hfetch.
  destruct (order_loop_runs sym st orders (set_venue v' w) tr Htr)
    as (w' & tr' & Hrun & Htr' & Hven & Hwarn & Hclk & Hsame).
  exists w', tr'. split; [|done].
  replace (length orders + 2)%nat with (S (S (length orders))) by lia.
  cbn [replicate run_pool]. unfold mbind at 1, M_bind at 1. unfold pool_step.
  cbn [lookup list_lookup]. unfold mbind at 1, M_bind at 1.
  cbn [orderTask_step]. run_monad. rewrite Hfetch. cbn. exact Hrun.
Qed.

Lemma order_task_runs_to_end_witness :
  exists w' tr',
    @run_pool Mock.externals _ orderTask_step (replicate (1 + 2) 0%nat)
        [OFetch "btc_usdt" StatusCompleted]
        (Mock.world (Some {[ 42 := submitted_42 ]}) None reports_42_completed)
      = (Returned [ODone], w')
    /\ @Tracker Mock.externals (client w') = Some tr'
    /\ clock w' = 1%nat.
Proof.
  destruct (@order_task_runs_to_end Mock.externals "btc_usdt" StatusCompleted
              [Order.mk 42 1600000000]
              (Mock.world (Some {[ 42 := submitted_42 ]}) None reports_42_completed)
              {[ 42 := submitted_42 ]} reports_42_completed eq_refl eq_refl)
    as (w' & tr' & Hrun & Htr' & _ & _ & Hclk & _).
  exists w', tr'. split; [exact Hrun|]. split; [exact Htr'|exact Hclk].
Defined.

(** ** [Update] on any configuration *)

Section UpdateRuns.
Context `{E : Externals}.

(** The tasks of both sweeps leave [c.RefreshInterval] alone. *)
Lemma order_pool_step_interval (j : nat) (pool pool' : list OrderTask) (w w' : World) :
  pool_step orderTask_step j pool w = (Returned pool', w') ->
  RefreshInterval (client w') = RefreshInterval (client w).
Proof.
  unfold pool_step. destruct (pool !! j) as [t|]; [|intros H; by injection H as _ <-].
  unfold mbind, M_bind.
  destruct (orderTask_step t w) as [[t'|] w1] eqn:Hstep; [|discriminate].
  intros H. injection H as _ <-. revert Hstep.
  destruct t as [sym st|sym st [|order rest]|]; cbn.
  - run_monad.
    destruct (GetOrderByStatus _ _ _ _ _ _) as [[orders [e|]] v']; cbn;
      intros H; by injection H as _ <-.
  - intros H. by injection H as _ <-.
  - unfold reconcile.
    destruct (String.eqb st StatusOpened || String.eqb st StatusPartial);
      [|destruct (String.eqb st StatusCancelled);
        [|destruct (String.eqb st StatusCompleted)]];
      run_monad; destruct (Tracker (client w)); cbn; intros H;
      try discriminate H; by injection H as _ <-.
  - intros H. by injection H as _ <-.
Qed.

Lemma book_pool_step_interval (j : nat) (pool pool' : list BookTask) (w w' : World) :
  pool_step bookTask_step j pool w = (Returned pool', w') ->
  RefreshInterval (client w') = RefreshInterval (client w).
Proof.
  unfold pool_step. destruct (pool !! j) as [t|]; [|intros H; by injection H as _ <-].
  unfold mbind, M_bind.
  destruct (bookTask_step t w) as [[t'|] w1] eqn:Hstep; [|discriminate].
  intros H. injection H as _ <-. revert Hstep.
  destruct t as [s|s bids asks|]; cbn; run_monad.
  - destruct (GetOrderBook s (venue w)) as [[orders [e|]] v']; cbn;
      intros H; by injection H as _ <-.
  - destruct (OrderBookTracker (client w)); cbn; intros H;
      [by injection H as _ <-|discriminate H].
  - intros H. by injection H as _ <-.
Qed.

(** On a client whose ticker can be made no step panics, and the step
    keeps what the next one relies on. *)
Lemma guarded_step (w : World) (ev : Event) (m : Machine) :
  0 < ticker_period (client w) ->
  guarded m -> respects_nil w m -> same_interval w m ->
  exists m', step ev m = Returned m' /\ guarded m' /\ respects_nil w m'
             /\ same_interval w m'.
Proof.
  intros Hpos Hg Hnil Hsame. pose proof Hg as [Htracker Hbook].
  pose proof Hnil as [Hnobook Hnotracker].
  destruct ev as [| | |j| |g|g j|g]; cbn.
  - (* EvUpdate *)
    destruct (upd m) eqn:Hupd; try (by exists m).
    unfold ticker_period in Hpos |- *. rewrite Hsame.
    apply Z.ltb_lt in Hpos. rewrite Hpos.
    eexists. split; [reflexivity|]. split; [by split|]. split; [|done].
    split; [done|]. intros Hn. destruct (Hnotracker Hn) as (? & ? & ?). by repeat split.
  - (* EvTick *)
    destruct (upd m) eqn:Hupd; try (by exists m).
    eexists. split; [reflexivity|]. unfold checkUpdate.
    split; [split|split; [split|done]]; cbn.
    + intros pool Hpool. destruct (Tracker (client (world m))) eqn:Htr;
        [by eexists | discriminate Hpool].
    + destruct (OrderBookTracker (client (world m))) eqn:Hbk; [|exact Hbook].
      intros _. unfold has_book. rewrite Hbk. by eexists.
    + intros Hn. destruct (Hnobook Hn) as [Hs Hb]. by rewrite Hb.
    + intros Hn. destruct (Hnotracker Hn) as (Ht & Hw & Hu). rewrite Ht. by repeat split.
  - (* EvStop *)
    destruct (upd m) eqn:Hupd; try (by exists m).
    eexists. split; [reflexivity|]. split; [by split|]. split; [|done].
    split; [done|]. intros Hn. destruct (Hnotracker Hn) as (? & ? & ?). by repeat split.
  - (* EvOrder *)
    destruct (upd m) as [| |pool] eqn:Hupd; try (by exists m).
    destruct (pool_step_returns orderTask_step has_tracker orderTask_step_returns
                j pool (world m) (Htracker pool eq_refl))
      as (pool' & w' & Hstep & Hw' & _).
    rewrite Hstep. eexists. split; [reflexivity|].
    pose proof (order_pool_step_book _ _ _ _ _ Hstep) as Hbk.
    pose proof (order_pool_step_interval _ _ _ _ _ Hstep) as Hri.
    split; [split|split; [split|]]; cbn.
    + done.
    + intros Hs. unfold has_book. rewrite Hbk. by apply Hbook.
    + intros Hn. destruct (Hnobook Hn) as [Hs Hb]. by rewrite Hbk.
    + intros Hn. destruct (Hnotracker Hn) as (_ & _ & Hu). by destruct (Hu pool).
    + unfold same_interval in *. cbn. congruence.
  - (* EvJoin *)
    destruct (upd m) as [| |pool] eqn:Hupd; try (by exists m).
    destruct (forallb order_done pool); [|by exists m].
    eexists. split; [reflexivity|]. split; [by split|]. split; [|done].
    split; [done|]. intros Hn. destruct (Hnotracker Hn) as (? & ? & ?). by repeat split.
  - (* EvSend *)
    destruct (sweeps m !! g) as [[|tasks|]|] eqn:Hsw; try (by exists m).
    destruct (sem m) as [[|n]|]; try (by exists m).
    eexists. split; [reflexivity|]. split; [split|split; [split|done]]; cbn.
    + done.
    + intros _. by eapply Hbook, sweeps_nonempty.
    + intros Hn. destruct (Hnobook Hn) as [Hs _]. rewrite Hs in Hsw. discriminate Hsw.
    + done.
  - (* EvBook *)
    destruct (sweeps m !! g) as [[|tasks|]|] eqn:Hsw; try (by exists m).
    destruct (Hbook (sweeps_nonempty _ _ _ Hsw)) as [bk Hbk].
    destruct (book_pool_step j tasks (world m) bk Hbk)
      as (tasks' & w' & bk' & Hstep & Hbk' & Htr & Hwarn & _).
    pose proof (book_pool_step_interval _ _ _ _ _ Hstep) as Hri.
    rewrite Hstep. eexists. split; [reflexivity|]. split; [split|split; [split|]]; cbn.
    + intros pool Hpool. unfold has_tracker. rewrite Htr. by apply (Htracker pool).
    + intros _. by exists bk'.
    + intros Hn. destruct (Hnobook Hn) as [Hs _]. rewrite Hs in Hsw. discriminate Hsw.
    + intros Hn. destruct (Hnotracker Hn) as (Ht & Hw & Hu).
      split; [congruence|]. split; [congruence|done].
    + unfold same_interval in *. cbn. congruence.
  - (* EvRecv *)
    destruct (sweeps m !! g) as [[|tasks|]|] eqn:Hsw; try (by exists m).
    destruct (sem m) as [[|n]|]; try (by exists m).
    destruct (forallb book_done tasks); [|by exists m].
    eexists. split; [reflexivity|]. split; [split|split; [split|done]]; cbn.
    + done.
    + intros _. by eapply Hbook, sweeps_nonempty.
    + intros Hn. destruct (Hnobook Hn) as [Hs _]. rewrite Hs in Hsw. discriminate Hsw.
    + done.
Qed.

(** Before [Update] is called nothing happens. *)
Lemma idle_run (w : World) (evs : list Event) :
  EvUpdate ∉ evs -> run evs (boot w) = Returned (boot w).
Proof.
  induction evs as [|ev evs IH]; intros Hevs; [reflexivity|].
  apply not_elem_of_cons in Hevs as [Hev Hevs].
  destruct ev as [| | |j| |g|g j|g]; [done|..]; cbn; by apply IH.
Qed.

End UpdateRuns.

(** X10.  [Update] panics in one place only, the call of [time.NewTicker],
    and there exactly when [c.RefreshInterval * time.Millisecond] is not a
    positive [int64].  With a positive period neither [Update] nor a
    goroutine it starts panics, whatever the trackers and however often
    [Update] is stopped and called again: every tracker call of a sweep is
    behind the nil test of [checkUpdate]; on a client without an order-book
    tracker no order-book sweep ever exists, and on a client without a
    tracker no order-status sweep is ever started and nothing is ever
    logged.  With a period that is not positive the first call of [Update]
    panics, and until then nothing happens. *)
Theorem Update_panics_in_NewTicker_only `{E : Externals} (w : World) (evs : list Event) :
  (0 < ticker_period (client w) ->
   exists m,
     run evs (boot w) = Returned m
     /\ (OrderBookTracker (client w) = None ->
         sweeps m = [] /\ OrderBookTracker (client (world m)) = None)
     /\ (Tracker (client w) = None ->
         Tracker (client (world m)) = None
         /\ warnings (world m) = warnings w
         /\ forall pool, upd m ≠ UWait pool))
  /\ (ticker_period (client w) <= 0 ->
      (EvUpdate ∉ evs -> run evs (boot w) = Returned (boot w))
      /\ forall evs', EvUpdate ∉ evs ->
           run (evs ++ EvUpdate :: evs') (boot w) = Panicked).
Proof.
  split.
  - intros Hpos.
    enough (forall m0, guarded m0 -> respects_nil w m0 -> same_interval w m0 ->
              exists m, run evs m0 = Returned m /\ respects_nil w m) as Hrun.
    { destruct (Hrun (boot w)) as (m & Hm & Hnil); [by split|by split|done|].
      exists m. split; [exact Hm|exact Hnil]. }
    induction evs as [|ev evs IH]; intros m0 Hg Hnil Hsame.
    + by exists m0.
    + destruct (guarded_step w ev m0 Hpos Hg Hnil Hsame) as (m1 & Hstep & Hg1 & Hnil1 & Hs1).
      destruct (IH m1 Hg1 Hnil1 Hs1) as (m & Hrun & Hm).
      exists m. cbn. by rewrite Hstep.
  - intros Hneg. split; [apply idle_run|].
    intros evs' Hevs. rewrite run_app, (idle_run w evs Hevs).
    by apply run_Update_panics.
Qed.

Lemma Update_panics_in_NewTicker_only_witness :
  exists m,
    @run Mock.externals
      [EvUpdate; EvTick; EvSend 0%nat; EvStop; EvUpdate; EvTick; EvBook 0%nat 1%nat]
      (boot (Mock.world None None Mock.quiet)) = Returned m
    /\ sweeps m = []
    /\ warnings (world m) = [].
Proof.
  destruct (@Update_panics_in_NewTicker_only Mock.externals
              (Mock.world None None Mock.quiet)
              [EvUpdate; EvTick; EvSend 0%nat; EvStop; EvUpdate; EvTick; EvBook 0%nat 1%nat])
    as [Hruns _].
  destruct (Hruns eq_refl) as (m & Hrun & Hbook & Htracker).
  exists m. split; [exact Hrun|].
  split; [exact (proj1 (Hbook eq_refl))|].
  exact (proj1 (proj2 (Htracker eq_refl))).
Defined.

(** ** Every sweep gets the token and gives it back *)

Section Drain.
Context `{E : Externals}.

Lemma filter_pick {A : Type} (P : A -> Prop) `{forall x, Decision (P x)} (l : list A) :
  (0 < length (filter P l))%nat -> exists g s, l !! g = Some s /\ P s.
Proof.
  destruct (filter P l) as [|s rest] eqn:Hf; cbn; [lia|]. intros _.
  assert (Hs : s ∈ filter P l) by (rewrite Hf; apply list_elem_of_here).
  apply list_elem_of_filter in Hs as [HP Hs].
  apply list_elem_of_lookup in Hs as [g Hg]. by exists g, s.
Qed.

Lemma filter_has {A : Type} (P : A -> Prop) `{forall x, Decision (P x)} (l : list A)
    (g : nat) (s : A) :
  l !! g = Some s -> P s -> (0 < length (filter P l))%nat.
Proof.
  intros Hg HP.
  assert (Hs : s ∈ filter P l).
  { apply list_elem_of_filter. split; [done|]. by eapply list_elem_of_lookup_2. }
  destruct (filter P l); [by apply elem_of_nil in Hs|cbn; lia].
Qed.

(** Steps of the tasks of sweep [g], seen from the machine. *)
Lemma run_book_events (sched : list nat) (g : nat) (m : Machine)
    (tasks tasks' : list BookTask) (w' : World) :
  sweeps m !! g = Some (SWait tasks) ->
  run_pool bookTask_step sched tasks (world m) = (Returned tasks', w') ->
  run (EvBook g <$> sched) m
  = Returned (mkMachine w' (sem m) (upd m) (<[g := SWait tasks']> (sweeps m))).
Proof.
  revert m tasks. induction sched as [|j sched IH]; intros m tasks Hg Hrun.
  - cbn in Hrun |- *. injection Hrun as <- <-.
    rewrite list_insert_id by done. by destruct m.
  - cbn in Hrun |- *. unfold mbind, M_bind in Hrun. rewrite Hg.
    destruct (pool_step bookTask_step j tasks (world m)) as [[tasks1|] w1];
      [|discriminate Hrun].
    rewrite (IH (mkMachine w1 (sem m) (upd m) (<[g := SWait tasks1]> (sweeps m)))
                tasks1); [|cbn; apply list_lookup_insert_eq; by eapply lookup_lt_Some|done].
    cbn. by rewrite list_insert_insert_eq.
Qed.

Lemma not_update_fmap_book (g : nat) (sched : list nat) (g' : nat) :
  EvUpdate ∉ (EvBook g <$> sched) ++ [EvRecv g'].
Proof.
  intros Hin. apply elem_of_app in Hin as [Hin|Hin].
  - apply list_elem_of_fmap in Hin as (j & Hj & _). discriminate Hj.
  - apply list_elem_of_singleton in Hin. discriminate Hin.
Qed.

(** A sweep that holds the token can finish its tasks and give it back. *)
Lemma finish_sweep (m : Machine) (g : nat) (tasks : list BookTask) :
  token_inv m ->
  sweeps m !! g = Some (SWait tasks) ->
  exists evs m',
    (EvUpdate ∉ evs)
    /\ run evs m = Returned m'
    /\ token_inv m'
    /\ sweeps m' = <[g := SExit]> (sweeps m)
    /\ sem m' = Some 0%nat.
Proof.
  intros Hinv Hg. pose proof Hinv as [Hsem Hone _ Hbook _].
  assert (Hw : has_book (world m)) by (by eapply Hbook, sweeps_nonempty).
  destruct (pool_completes bookTask_step book_done has_book bookTask_finishes
              [] tasks (world m) Hw eq_refl) as (sched & tasks' & w' & Hrun & Hall & _).
  assert (Hfl : in_flight m = 1%nat).
  { pose proof (filter_has (fun s => holds_token s = true) (sweeps m) g (SWait tasks)
                  Hg eq_refl) as Hpos.
    unfold in_flight in *. lia. }
  pose proof (not_update_fmap_book g sched g) as Hevs.
  destruct (token_inv_run _ m Hinv Hevs) as (m' & Hm' & Hinv').
  exists ((EvBook g <$> sched) ++ [EvRecv g]), m'.
  split; [done|]. split; [done|]. split; [done|].
  rewrite run_app, (run_book_events sched g m tasks tasks' w' Hg Hrun) in Hm'.
  cbn in Hm'.
  rewrite list_lookup_insert_eq in Hm' by (by eapply lookup_lt_Some).
  rewrite Hsem, Hfl, Hall in Hm'.
  injection Hm' as <-. cbn. by rewrite list_insert_insert_eq.
Qed.

Lemma unfinished_insert (m : Machine) (g : nat) (s s' : BookSweep) :
  sweeps m !! g = Some s ->
  (length (filter (fun s => exited s = false) (<[g := s']> (sweeps m)))
   + (if exited s then 0 else 1)
   = unfinished m + (if exited s' then 0 else 1))%nat.
Proof.
  intros Hg. unfold unfinished.
  pose proof (filter_insert_length (fun s => exited s = false) _ g s s' Hg) as Hc.
  destruct (exited s) eqn:Hs, (exited s') eqn:Hs';
    repeat case_decide; try congruence; lia.
Qed.

(** From a state of one run of [Update] all sweeps can be brought to their
    end, one after the other. *)
Lemma drain (n : nat) (m : Machine) :
  token_inv m -> unfinished m = n ->
  exists evs m',
    (EvUpdate ∉ evs)
    /\ run evs m = Returned m'
    /\ token_inv m'
    /\ unfinished m' = 0%nat
    /\ length (sweeps m') = length (sweeps m).
Proof.
  revert m. induction n as [|n IH]; intros m Hinv Hn.
  - exists [], m. split; [apply not_elem_of_nil|].
    split; [done|]. split; [done|]. by split.
  - assert (Hheld : forall m1 g tasks,
              token_inv m1 -> sweeps m1 !! g = Some (SWait tasks) ->
              unfinished m1 = S n ->
              exists evs m',
                (EvUpdate ∉ evs) /\ run evs m1 = Returned m' /\ token_inv m'
                /\ unfinished m' = 0%nat /\ length (sweeps m') = length (sweeps m1)).
    { intros m1 g tasks Hinv1 Hg Hn1.
      destruct (finish_sweep m1 g tasks Hinv1 Hg) as (evs1 & m2 & Hevs1 & Hrun1 & Hinv2 & Hsw & _).
      pose proof (unfinished_insert m1 g (SWait tasks) SExit Hg) as Hc. cbn in Hc.
      destruct (IH m2 Hinv2) as (evs2 & m' & Hevs2 & Hrun2 & Hinv' & Hdone & Hlen).
      { unfold unfinished. rewrite Hsw. lia. }
      exists (evs1 ++ evs2), m'. split.
      { intros Hin. apply elem_of_app in Hin as [Hin|Hin]; auto. }
      split; [by rewrite run_app, Hrun1|]. split; [done|]. split; [done|].
      by rewrite Hlen, Hsw, length_insert. }
    pose proof Hinv as [Hsem Hone _ _ _].
    destruct (in_flight m) as [|k] eqn:Hfl.
    + destruct (filter_pick (fun s => exited s = false) (sweeps m)) as (g & s & Hg & Hs);
        [unfold unfinished in Hn; lia|].
      destruct s as [|tasks|]; [|by apply (Hheld m g tasks)|discriminate Hs].
      destruct (token_inv_step (EvSend g) m Hinv) as (m1 & Hstep & Hinv1); [done|].
      pose proof Hstep as Hstep'. cbn in Hstep'. rewrite Hg, Hsem in Hstep'.
      injection Hstep' as Hm1.
      pose proof (unfinished_insert m g SSend (SWait book_tasks) Hg) as Hc. cbn in Hc.
      destruct (Hheld m1 g book_tasks Hinv1) as (evs & m' & Hevs & Hrun & Hinv' & Hdone & Hlen).
      { rewrite <- Hm1. cbn. apply list_lookup_insert_eq. by eapply lookup_lt_Some. }
      { unfold unfinished. rewrite <- Hm1. cbn. lia. }
      exists (EvSend g :: evs), m'. split.
      { intros Hin. apply elem_of_cons in Hin as [Hin|Hin]; [discriminate Hin|auto]. }
      split; [cbn [run]; by rewrite Hstep|]. split; [done|]. split; [done|].
      rewrite Hlen, <- Hm1. cbn. apply length_insert.
    + destruct (filter_pick (fun s => holds_token s = true) (sweeps m)) as (g & s & Hg & Hs);
        [unfold in_flight in Hfl; lia|].
      destruct s as [|tasks|]; try discriminate Hs. by apply (Hheld m g tasks).
Qed.

Lemma unfinished_none (m : Machine) :
  unfinished m = 0%nat -> forall g s, sweeps m !! g = Some s -> s = SExit.
Proof.
  intros Hn g s Hg. destruct s as [|tasks|]; [| |done].
  - pose proof (filter_has (fun s => exited s = false) (sweeps m) g SSend Hg eq_refl).
    unfold unfinished in Hn. lia.
  - pose proof (filter_has (fun s => exited s = false) (sweeps m) g (SWait tasks) Hg eq_refl).
    unfold unfinished in Hn. lia.
Qed.

End Drain.

(** X11.  In the first run of [Update] on a client, with no sweep of an
    earlier run left over and a refresh interval for which the ticker can
    be made, the admission token never gets stuck: from every state the
    run can reach while [Update] is not called again, the sweeps that have
    been started can all still be brought to their end, each passing its
    send, finishing its tasks and passing its receive, after which no
    sweep waits and the channel is empty again. *)
Theorem book_sweeps_drain `{E : Externals} (w : World) (evs : list Event) :
  0 < ticker_period (client w) ->
  EvUpdate ∉ evs ->
  exists m evs' m',
    run (EvUpdate :: evs) (boot w) = Returned m
    /\ (EvUpdate ∉ evs')
    /\ run evs' m = Returned m'
    /\ (forall g s, sweeps m' !! g = Some s -> s = SExit)
    /\ length (sweeps m') = length (sweeps m)
    /\ in_flight m' = 0%nat
    /\ sem m' = Some 0%nat.
Proof.
  intros Hpos Hevs.
  destruct (token_inv_run evs _ (token_inv_started w) Hevs) as (m & Hrun & Hinv).
  destruct (drain (unfinished m) m Hinv eq_refl)
    as (evs' & m' & Hevs' & Hrun' & Hinv' & Hdone & Hlen).
  exists m, evs', m'. split; [by rewrite run_first_Update|]. split; [done|].
  split; [done|].
  pose proof (unfinished_none m' Hdone) as Hall.
  split; [done|]. split; [done|].
  assert (H0 : in_flight m' = 0%nat).
  { destruct (in_flight m') eqn:Hfl; [done|].
    destruct (filter_pick (fun s => holds_token s = true) (sweeps m')) as (g & s & Hg & Hs);
      [unfold in_flight in Hfl; lia|].
    rewrite (Hall g s Hg) in Hs. discriminate Hs. }
  split; [done|]. destruct Hinv' as [Hsem' _ _ _ _]. by rewrite Hsem', H0.
Qed.

Lemma book_sweeps_drain_witness :
  exists m evs' m',
    @run Mock.externals [EvUpdate; EvTick; EvSend 0%nat; EvTick]
      (boot (Mock.world None (Some ∅) Mock.quiet)) = Returned m
    /\ run evs' m = Returned m'
    /\ length (sweeps m') = 2%nat
    /\ sem m' = Some 0%nat.
Proof.
  assert (Hevs : EvUpdate ∉ [EvTick; EvSend 0%nat; EvTick]).
  { intros Hin.
    repeat (apply elem_of_cons in Hin as [Hin|Hin]; [discriminate Hin|]).
    by apply elem_of_nil in Hin. }
  destruct (@book_sweeps_drain Mock.externals
              (Mock.world None (Some ∅) Mock.quiet) _ eq_refl Hevs)
    as (m & evs' & m' & Hrun & _ & Hrun' & _ & Hlen & _ & Hsem).
  exists m, evs', m'. split; [exact Hrun|]. split; [exact Hrun'|].
  split; [|exact Hsem]. rewrite Hlen. cbn in Hrun. by injection Hrun as <-.
Defined.
